(** * lcpcli: the verticalization engine of [lcpcli/parsers/_parser.py]

    A shallow embedding of [Parser.upload_new_doc], [Parser.write_token_deps],
    [Parser.aligned_entity], [Parser.close_aligned_entity],
    [Parser.close_upload_files], [Parser.generate_upload_files_generator] and
    the padding of [Parser.generate_upload_files], followed by the properties
    of the specification that concern them and by further properties of the
    code.

    Python integers are [Z]; strings are [string]; dictionaries are
    association lists in insertion order (the order Python iterates them in);
    the parser object and the generator's local variables form one explicit
    state; an exception is an outcome [Raise e] that leaves the state as it
    was when it was raised, so rows written before it stay written. *)

From Stdlib Require Import ZArith List String Ascii Bool Lia DecimalString.
Import ListNotations.

Local Open Scope string_scope.
Local Open Scope Z_scope.
Local Open Scope list_scope.

Set Implicit Arguments.

(* ================================================================== *)
(** ** Python strings *)

Module PyStr.

(** [str(n)] for an integer. *)
Definition str_Z (z : Z) : string := NilZero.string_of_int (Z.to_int z).

(** [len(s)]. *)
Definition len (s : string) : Z := Z.of_nat (String.length s).

(** f-string assembly: the pieces in order. *)
Definition fmt (pieces : list string) : string := String.concat "" pieces.

(** [sep.join(l)]. *)
Definition join (sep : string) (l : list string) : string := String.concat sep l.

Definition tab : ascii := ascii_of_nat 9.
Definition newline : ascii := ascii_of_nat 10.
Definition tab_s : string := String tab EmptyString.
Definition newline_s : string := String newline EmptyString.

(** The characters [str.strip()] removes (the ASCII ones). *)
Definition is_space (c : ascii) : bool :=
  let n := nat_of_ascii c in
  ((9 <=? n) && (n <=? 13) || (28 <=? n) && (n <=? 32))%nat.

Fixpoint lstrip (s : string) : string :=
  match s with
  | EmptyString => EmptyString
  | String c r => if is_space c then lstrip r else s
  end.

Fixpoint rstrip (s : string) : string :=
  match s with
  | EmptyString => EmptyString
  | String c r =>
      match rstrip r with
      | EmptyString => if is_space c then EmptyString else String c EmptyString
      | r' => String c r'
      end
  end.

Definition strip (s : string) : string := rstrip (lstrip s).

Definition lower_ascii (c : ascii) : ascii :=
  let n := nat_of_ascii c in
  if ((65 <=? n) && (n <=? 90))%nat then ascii_of_nat (n + 32) else c.

(** [s.lower()] on ASCII text. *)
Fixpoint lower (s : string) : string :=
  match s with
  | EmptyString => EmptyString
  | String c r => String (lower_ascii c) (lower r)
  end.

(** [s.startswith(p)]. *)
Definition startswith (s p : string) : bool := String.prefix p s.

(** [s.split(sep)] for a one-character separator: never empty,
    [''.split(',') == ['']]. *)
Fixpoint split (sep : ascii) (s : string) : list string :=
  match s with
  | EmptyString => [EmptyString]
  | String c r =>
      if Ascii.eqb c sep then EmptyString :: split sep r
      else match split sep r with
           | [] => [String c EmptyString]
           | w :: ws => String c w :: ws
           end
  end.

(** The lines [readline()] returns one after the other: each keeps its
    newline, the last one may lack it, and the end of the file is the
    end of the list. *)
Fixpoint readlines (content : string) : list string :=
  match content with
  | EmptyString => []
  | String c r =>
      if Ascii.eqb c newline then String c EmptyString :: readlines r
      else match readlines r with
           | [] => [String c EmptyString]
           | l :: ls => String c l :: ls
           end
  end.

(** [re.sub(r"'", "''", s)]. *)
Fixpoint double_quotes (s : string) : string :=
  match s with
  | EmptyString => EmptyString
  | String c r =>
      if Ascii.eqb c "'"%char then String c (String c (double_quotes r))
      else String c (double_quotes r)
  end.

(** ["".join(["0" for _ in range(n)])]: empty when [n <= 0]. *)
Definition zeros (n : Z) : string :=
  fmt (repeat "0" (Z.to_nat n)).

Fixpoint bin_pos (p : positive) : string :=
  match p with
  | xH => "1"
  | xO q => String.append (bin_pos q) "0"
  | xI q => String.append (bin_pos q) "1"
  end.

(** [bin(n)[2:]] for [n >= 0]. *)
Definition bin (n : Z) : string :=
  match n with
  | Zpos p => bin_pos p
  | _ => "0"
  end.

(** [int(bs, 2)] for [bs = "1" + zeros(k)]. *)
Definition int2_one_zeros (k : Z) : Z := Z.shiftl 1 (Z.max 0 k).

(** [cols[n]] with Python's indexing: negative indices count from the end. *)
Definition index {A} (l : list A) (n : Z) : option A :=
  let len := Z.of_nat (List.length l) in
  if (0 <=? n) && (n <? len) then nth_error l (Z.to_nat n)
  else if (n <? 0) && (0 <=? len + n) then nth_error l (Z.to_nat (len + n))
  else None.

Fixpoint set_nth {A} (l : list A) (n : nat) (x : A) : list A :=
  match l, n with
  | [], _ => []
  | _ :: r, O => x :: r
  | y :: r, S m => y :: set_nth r m x
  end.

(** [cols[n] = x], for an index [index] accepts. *)
Definition set_index {A} (l : list A) (n : Z) (x : A) : list A :=
  let len := Z.of_nat (List.length l) in
  if 0 <=? n then set_nth l (Z.to_nat n) x else set_nth l (Z.to_nat (len + n)) x.

End PyStr.

(* ================================================================== *)
(** ** Python dictionaries with string keys, in insertion order *)

Module Dict.
Section WithValue.
Variable V : Type.

Definition t := list (string * V).

Fixpoint get (k : string) (d : t) : option V :=
  match d with
  | [] => None
  | (k', v) :: r => if String.eqb k k' then Some v else get k r
  end.

Definition mem (k : string) (d : t) : bool :=
  match get k d with Some _ => true | None => false end.

(** [d[k] = v]: an existing key keeps its place. *)
Fixpoint set (k : string) (v : V) (d : t) : t :=
  match d with
  | [] => [(k, v)]
  | (k', v') :: r =>
      if String.eqb k k' then (k', v) :: r else (k', v') :: set k v r
  end.

(** [d.pop(k)] on the dictionary. *)
Fixpoint pop (k : string) (d : t) : t :=
  match d with
  | [] => []
  | (k', v') :: r => if String.eqb k k' then pop k r else (k', v') :: pop k r
  end.

Definition keys (d : t) : list string := map fst d.
Definition values (d : t) : list V := map snd d.
End WithValue.

Arguments get {V} k d.
Arguments mem {V} k d.
Arguments set {V} k v d.
Arguments pop {V} k d.
Arguments keys {V} d.
Arguments values {V} d.
End Dict.

(** [x in l] for a list of strings. *)
Definition str_in (x : string) (l : list string) : bool :=
  existsb (String.eqb x) l.

(* ================================================================== *)
(** ** Exceptions and the state-and-exception monad *)

Inductive exn : Type :=
| KeyError (key : string)
| IndexError
| AssertionError (what : string)
| TypeError
| AttributeError
| RecursionError
| ValueError.

Inductive Res (A : Type) : Type :=
| Ok (a : A)
| Raise (e : exn).

Arguments Ok {A} a.
Arguments Raise {A} e.

(** A computation over a state [S]: its outcome and the state it leaves. *)
Definition M (S A : Type) : Type := S -> Res A * S.

Definition ret {S A} (a : A) : M S A := fun s => (Ok a, s).

Definition raise {S A} (e : exn) : M S A := fun s => (Raise e, s).

Definition bind {S A B} (m : M S A) (k : A -> M S B) : M S B :=
  fun s => match m s with
           | (Ok a, s') => k a s'
           | (Raise e, s') => (Raise e, s')
           end.

Definition gets {S A} (f : S -> A) : M S A := fun s => (Ok (f s), s).

Definition modify {S} (f : S -> S) : M S unit := fun s => (Ok tt, f s).

Declare Scope py_scope.
Delimit Scope py_scope with py.

Notation "x <- c ;; k" := (bind c (fun x => k))
  (at level 100, c at next level, right associativity) : py_scope.
Notation "c ;;; k" := (bind c (fun _ => k))
  (at level 100, right associativity) : py_scope.

Local Open Scope py_scope.

(** [for x in l: body(x)]. *)
Fixpoint for_each {S A} (l : list A) (body : A -> M S unit) : M S unit :=
  match l with
  | [] => ret tt
  | x :: r => body x ;;; for_each r body
  end.

(** A loop that carries a local accumulator (a list being appended to). *)
Fixpoint fold_each {S A B} (l : list A) (acc : B) (body : B -> A -> M S B) : M S B :=
  match l with
  | [] => ret acc
  | x :: r => acc' <- body acc x ;; fold_each r acc' body
  end.

(** [d[k]], raising [KeyError]. *)
Definition getitem {S V} (k : string) (d : Dict.t V) : M S V :=
  match Dict.get k d with
  | Some v => ret v
  | None => raise (KeyError k)
  end.

(** [enumerate(l, start)]. *)
Fixpoint enumerate {A} (start : Z) (l : list A) : list (Z * A) :=
  match l with
  | [] => []
  | x :: r => (start, x) :: enumerate (start + 1) r
  end.

(* ================================================================== *)
(** ** The record model (classes of [lcpcli.utils], consumed only) *)

Import PyStr.

(** Modelled from the spec: the attribute classes of [lcpcli.utils], which is
    not part of the sources at hand.  "Attribute: polymorphic over variants
    Categorical, Text, Meta (free-form key/value mapping), Dependency (head
    reference + edge label)".  Every attribute carries its own [name];
    [value] is the text, the mapping, or the head reference. *)
Inductive Attribute : Type :=
| Categorical (name value : string)
| Text (name value : string)
| Meta (name : string) (value : Dict.t string)
| Dependency (name value label : string).

Definition attr_name (a : Attribute) : string :=
  match a with
  | Categorical n _ | Text n _ | Meta n _ | Dependency n _ _ => n
  end.

(** The truth value of [attr.value]: a non-empty text or mapping. *)
Definition value_truthy (a : Attribute) : bool :=
  match a with
  | Categorical _ v | Text _ v | Dependency _ v _ =>
      negb (String.eqb v "")
  | Meta _ d => match d with [] => false | _ => true end
  end.

(** [str(d)] for a mapping of strings. *)
Definition dict_str (d : Dict.t string) : string :=
  fmt ["{"; join ", " (map (fun kv => fmt ["'"; fst kv; "': '"; snd kv; "'"]) d); "}"].

(** [str(attr.value)]. *)
Definition value_str (a : Attribute) : string :=
  match a with
  | Categorical _ v | Text _ v | Dependency _ v _ => v
  | Meta _ d => dict_str d
  end.

(** [len(attr.value)]. *)
Definition value_len (a : Attribute) : Z :=
  match a with
  | Categorical _ v | Text _ v | Dependency _ v _ => len v
  | Meta _ d => Z.of_nat (List.length d)
  end.

Definition is_Text (a : Attribute) : bool :=
  match a with Text _ _ => true | _ => false end.
Definition is_Categorical (a : Attribute) : bool :=
  match a with Categorical _ _ => true | _ => false end.
Definition is_Meta (a : Attribute) : bool :=
  match a with Meta _ _ => true | _ => false end.
Definition is_Dependency (a : Attribute) : bool :=
  match a with Dependency _ _ _ => true | _ => false end.

(** Modelled from the spec: "Token: identifier, spaceAfter flag, optional
    frame-range pair, mapping of attribute-name to Attribute". *)
Record Token : Type := {
  tok_id : string;
  spaceAfter : bool;
  tok_frame_range : option (Z * Z);
  tok_attributes : Dict.t Attribute
}.

(** Modelled from the spec: "Segment: identifier, ordered set of attributes
    (including metadata), ordered sequence of owned Tokens".  [seg_id] is
    [str(segment.id)]. *)
Record Segment : Type := {
  seg_id : string;
  seg_attributes : Dict.t Attribute;
  seg_tokens : list Token
}.

(** Modelled from the spec: "Document: identifier, free-form metadata
    mapping, start-of-character-range, mutable frame-range pair". *)
Record Document : Type := {
  doc_id : string;
  doc_attributes : Dict.t Attribute;
  char_range_start : Z;
  doc_frame_range : Z * Z
}.

(** [Document()]: no attributes, frame range [[0, 0]]. *)
Definition Document_new : Document :=
  {| doc_id := ""; doc_attributes := []; char_range_start := 0;
     doc_frame_range := (0, 0) |}.

(** What the reader yields: [(segment_or_none, document_or_none)].  A
    document is a Python object the loop mutates and compares by identity,
    so it is named by its address in the state's document store. *)
Definition Item : Type := option Segment * option nat.

(* ------------------------------------------------------------------ *)
(** *** The layer/attribute schema ([self.config]) *)

Record AttrCfg : Type := {
  a_type : option string;
  a_isGlobal : bool;
  a_values : option (list string)
}.

Record LayerCfg : Type := {
  l_attributes : Dict.t AttrCfg;
  l_time_anchored : bool;
  l_nlabels : option Z
}.

Record MediaSlot : Type := {
  isOptional : option bool;
  mediaType : option string
}.

Record Config : Type := {
  layer : Dict.t LayerCfg;
  firstClass : option (Dict.t string);
  mediaSlots : Dict.t MediaSlot
}.

(** One entry of [aligned_entities]: the content of the reference file
    [fn] and [properties.contains]. *)
Record AlignedSpec : Type := {
  fn : string;
  contains : string
}.

(** [layer_attributes.get(name, {}).get("type")]. *)
Definition attr_type (attrs : Dict.t AttrCfg) (name : string) : option string :=
  match Dict.get name attrs with
  | Some c => a_type c
  | None => None
  end.

Definition opt_eqb (o : option string) (s : string) : bool :=
  match o with Some x => String.eqb x s | None => false end.

(** Modelled from the spec: [get_ci], the case-insensitive lookup of a layer;
    the result is the key under which the layer is declared, so that a table's
    [config] stays an alias of that entry of the schema. *)
Fixpoint get_ci_key (layers : Dict.t LayerCfg) (name : string) : option string :=
  match layers with
  | [] => None
  | (k, _) :: r => if String.eqb (lower k) (lower name) then Some k else get_ci_key r name
  end.

(** Modelled from the spec: [is_time_anchored], whether the contained layer
    is declared time-anchored. *)
Definition is_time_anchored (cfg : Config) (contained : string) : bool :=
  match Dict.get contained (layer cfg) with
  | Some l => l_time_anchored l
  | None => false
  end.

(* ================================================================== *)
(** ** Output tables *)

(** Modelled from the spec: the [NestedSet] node of [lcpcli.utils]: "token
    identifier, edge label, output row identifier, left/right interval bounds
    (undefined until compute_anchors runs), parent link, consumed flag".
    Nodes are Python objects that refer to one another, so they live in a
    store and are named by their address. *)
Record NestedSet : Type := {
  ns_id : string;
  ns_label : string;
  cursor_id : Z;
  ns_parent : option nat;
  ns_children : list nat;
  ns_left : Z;
  ns_right : Z;
  consumed : bool
}.

Definition NestedSet_new (id label : string) (cur : Z) : NestedSet :=
  {| ns_id := id; ns_label := label; cursor_id := cur; ns_parent := None;
     ns_children := []; ns_left := 0; ns_right := 0; consumed := false |}.

(** One buffered token of a dependency relation:
    [{"head_id": ..., "nested_set": ...}]. *)
Record DepEntry : Type := {
  head_id : string;
  nested_set : nat
}.

(** A value stored in an entity's [cols]: an id from a lookup table or a
    text read from the reference file. *)
Inductive PyVal : Type :=
| VInt (z : Z)
| VStr (s : string).

Definition val_str (v : PyVal) : string :=
  match v with VInt z => str_Z z | VStr s => s end.

(** [table.current_entity]: a dictionary with the keys ["id"], ["cols"],
    ["range_low"] and ["frame_range_start"], each present or not.  The two
    range entries hold [str(cursor)] and are read back with [int(...)]; the
    integer itself is kept. *)
Record Entity : Type := {
  e_id : option string;
  e_cols : option (list PyVal);
  e_range_low : option Z;
  e_frame_range_start : option Z
}.

(** [{}]. *)
Definition Entity_empty : Entity :=
  {| e_id := None; e_cols := None; e_range_low := None; e_frame_range_start := None |}.

Definition is_some {A} (o : option A) : bool :=
  match o with Some _ => true | None => false end.

(** The truth value of the dictionary: it has at least one key. *)
Definition entity_truthy (e : Entity) : bool :=
  is_some (e_id e) || is_some (e_cols e) || is_some (e_range_low e)
  || is_some (e_frame_range_start e).

(** Modelled from the spec: [Table] and its specializations [TokenTable] and
    [LookupTable] of [lcpcli.utils]: "column-name ordering, running row
    cursor starting at 1, set of observed categorical values per column,
    label to bit-index mapping, and (for LookupTable) a string to id cache".
    [rows] is the backing file, one list of fields per line written, and
    [closed] tells whether [tab.file.close()] has run on it; [t_config] is
    the key of the layer whose schema entry the table's [config] aliases. *)
Record Table : Type := {
  t_name : string;
  cursor : Z;
  rows : list (list string);
  t_config : option string;
  col_names : list string;
  categorical_values : Dict.t (list string);
  labels : Dict.t Z;
  current_entity : Entity;
  deps : Dict.t (Dict.t DepEntry);
  ns_heap : list NestedSet;
  anchor_right : Z;
  non_null_attributes : list string;
  ids : Dict.t Z;
  closed : bool
}.

Definition Table_new (name : string) (cfg : option string) : Table :=
  {| t_name := name; cursor := 1; rows := []; t_config := cfg; col_names := [];
     categorical_values := []; labels := []; current_entity := Entity_empty;
     deps := []; ns_heap := []; anchor_right := 0; non_null_attributes := [];
     ids := []; closed := false |}.

Definition set_cursor (c : Z) (t : Table) : Table :=
  {| t_name := t_name t; cursor := c; rows := rows t; t_config := t_config t;
     col_names := col_names t; categorical_values := categorical_values t;
     labels := labels t; current_entity := current_entity t; deps := deps t;
     ns_heap := ns_heap t; anchor_right := anchor_right t;
     non_null_attributes := non_null_attributes t; ids := ids t;
     closed := closed t |}.

Definition set_rows (r : list (list string)) (t : Table) : Table :=
  {| t_name := t_name t; cursor := cursor t; rows := r; t_config := t_config t;
     col_names := col_names t; categorical_values := categorical_values t;
     labels := labels t; current_entity := current_entity t; deps := deps t;
     ns_heap := ns_heap t; anchor_right := anchor_right t;
     non_null_attributes := non_null_attributes t; ids := ids t;
     closed := closed t |}.

Definition set_col_names (c : list string) (t : Table) : Table :=
  {| t_name := t_name t; cursor := cursor t; rows := rows t; t_config := t_config t;
     col_names := c; categorical_values := categorical_values t;
     labels := labels t; current_entity := current_entity t; deps := deps t;
     ns_heap := ns_heap t; anchor_right := anchor_right t;
     non_null_attributes := non_null_attributes t; ids := ids t;
     closed := closed t |}.

Definition set_categorical_values (c : Dict.t (list string)) (t : Table) : Table :=
  {| t_name := t_name t; cursor := cursor t; rows := rows t; t_config := t_config t;
     col_names := col_names t; categorical_values := c;
     labels := labels t; current_entity := current_entity t; deps := deps t;
     ns_heap := ns_heap t; anchor_right := anchor_right t;
     non_null_attributes := non_null_attributes t; ids := ids t;
     closed := closed t |}.

Definition set_labels (l : Dict.t Z) (t : Table) : Table :=
  {| t_name := t_name t; cursor := cursor t; rows := rows t; t_config := t_config t;
     col_names := col_names t; categorical_values := categorical_values t;
     labels := l; current_entity := current_entity t; deps := deps t;
     ns_heap := ns_heap t; anchor_right := anchor_right t;
     non_null_attributes := non_null_attributes t; ids := ids t;
     closed := closed t |}.

Definition set_current_entity (e : Entity) (t : Table) : Table :=
  {| t_name := t_name t; cursor := cursor t; rows := rows t; t_config := t_config t;
     col_names := col_names t; categorical_values := categorical_values t;
     labels := labels t; current_entity := e; deps := deps t;
     ns_heap := ns_heap t; anchor_right := anchor_right t;
     non_null_attributes := non_null_attributes t; ids := ids t;
     closed := closed t |}.

Definition set_deps (d : Dict.t (Dict.t DepEntry)) (t : Table) : Table :=
  {| t_name := t_name t; cursor := cursor t; rows := rows t; t_config := t_config t;
     col_names := col_names t; categorical_values := categorical_values t;
     labels := labels t; current_entity := current_entity t; deps := d;
     ns_heap := ns_heap t; anchor_right := anchor_right t;
     non_null_attributes := non_null_attributes t; ids := ids t;
     closed := closed t |}.

Definition set_ns_heap (h : list NestedSet) (t : Table) : Table :=
  {| t_name := t_name t; cursor := cursor t; rows := rows t; t_config := t_config t;
     col_names := col_names t; categorical_values := categorical_values t;
     labels := labels t; current_entity := current_entity t; deps := deps t;
     ns_heap := h; anchor_right := anchor_right t;
     non_null_attributes := non_null_attributes t; ids := ids t;
     closed := closed t |}.

Definition set_anchor_right (a : Z) (t : Table) : Table :=
  {| t_name := t_name t; cursor := cursor t; rows := rows t; t_config := t_config t;
     col_names := col_names t; categorical_values := categorical_values t;
     labels := labels t; current_entity := current_entity t; deps := deps t;
     ns_heap := ns_heap t; anchor_right := a;
     non_null_attributes := non_null_attributes t; ids := ids t;
     closed := closed t |}.

Definition set_non_null_attributes (n : list string) (t : Table) : Table :=
  {| t_name := t_name t; cursor := cursor t; rows := rows t; t_config := t_config t;
     col_names := col_names t; categorical_values := categorical_values t;
     labels := labels t; current_entity := current_entity t; deps := deps t;
     ns_heap := ns_heap t; anchor_right := anchor_right t;
     non_null_attributes := n; ids := ids t; closed := closed t |}.

Definition set_ids (i : Dict.t Z) (t : Table) : Table :=
  {| t_name := t_name t; cursor := cursor t; rows := rows t; t_config := t_config t;
     col_names := col_names t; categorical_values := categorical_values t;
     labels := labels t; current_entity := current_entity t; deps := deps t;
     ns_heap := ns_heap t; anchor_right := anchor_right t;
     non_null_attributes := non_null_attributes t; ids := i; closed := closed t |}.

Definition set_closed (c : bool) (t : Table) : Table :=
  {| t_name := t_name t; cursor := cursor t; rows := rows t; t_config := t_config t;
     col_names := col_names t; categorical_values := categorical_values t;
     labels := labels t; current_entity := current_entity t; deps := deps t;
     ns_heap := ns_heap t; anchor_right := anchor_right t;
     non_null_attributes := non_null_attributes t; ids := ids t; closed := c |}.

(** Modelled from the spec: [Table.write(row)] "appends to the backing
    file/stream"; every field is written as [str(field)].  The cursor is
    advanced by the callers, not by [write].  The table holds its file open
    from its creation until [close_upload_files] closes it; a write to a
    closed file is Python's [ValueError]. *)
Definition write (row : list string) : M Table unit :=
  fun t => if closed t then (Raise ValueError, t)
           else (Ok tt, set_rows (rows t ++ [row]) t).

(** [table.cursor += 1]. *)
Definition cursor_incr : M Table unit :=
  modify (fun t => set_cursor (cursor t + 1) t).

(** [values.add(v)] on the set of observed values of [name], created on
    first use (the set is kept in first-seen order). *)
Definition add_categorical (name v : string) : M Table unit :=
  modify (fun t =>
    let old := match Dict.get name (categorical_values t) with
               | Some l => l | None => [] end in
    let new := if str_in v old then old else old ++ [v] in
    set_categorical_values (Dict.set name new (categorical_values t)) t).

(** Modelled from the spec: [LookupTable.get_id(value)] "returns the cached id
    if value was seen before in this run, else appends (new_id, value) to the
    lookup store and caches it"; ids are the table's cursor values. *)
Definition get_id (value : string) : M Table Z :=
  t <- gets (fun t => t) ;;
  match Dict.get value (ids t) with
  | Some i => ret i
  | None =>
      let i := cursor t in
      write [str_Z i; value] ;;;
      modify (fun t => set_ids (Dict.set value i (ids t)) t) ;;;
      cursor_incr ;;;
      ret i
  end.

(* ================================================================== *)
(** ** Dependency Tree Linearizer *)

(** The node at an address.  Addresses are handed out by [ns_alloc], so the
    default is never reached from a state the parser builds. *)
Definition ns_at (h : list NestedSet) (a : nat) : NestedSet :=
  nth a h (NestedSet_new "" "" 0).

Definition ns_update (a : nat) (f : NestedSet -> NestedSet) (h : list NestedSet)
  : list NestedSet :=
  set_nth h a (f (ns_at h a)).

(** [NestedSet(id, label, cursor)]: a fresh node and its address. *)
Definition ns_alloc (n : NestedSet) : M Table nat :=
  a <- gets (fun t => List.length (ns_heap t)) ;;
  modify (fun t => set_ns_heap (ns_heap t ++ [n]) t) ;;;
  ret a.

(** Modelled from the spec: [NestedSet.add(child)]: "link every non-root node
    into its head's NestedSet as a child"; the child keeps a reference to its
    parent. *)
Definition ns_add (p c : nat) (h : list NestedSet) : list NestedSet :=
  let h1 := ns_update p (fun n =>
    {| ns_id := ns_id n; ns_label := ns_label n; cursor_id := cursor_id n;
       ns_parent := ns_parent n; ns_children := ns_children n ++ [c];
       ns_left := ns_left n; ns_right := ns_right n; consumed := consumed n |}) h in
  ns_update c (fun n =>
    {| ns_id := ns_id n; ns_label := ns_label n; cursor_id := cursor_id n;
       ns_parent := Some p; ns_children := ns_children n;
       ns_left := ns_left n; ns_right := ns_right n; consumed := consumed n |}) h1.

Definition ns_set_left (l : Z) (n : NestedSet) : NestedSet :=
  {| ns_id := ns_id n; ns_label := ns_label n; cursor_id := cursor_id n;
     ns_parent := ns_parent n; ns_children := ns_children n;
     ns_left := l; ns_right := ns_right n; consumed := consumed n |}.

Definition ns_set_right (r : Z) (n : NestedSet) : NestedSet :=
  {| ns_id := ns_id n; ns_label := ns_label n; cursor_id := cursor_id n;
     ns_parent := ns_parent n; ns_children := ns_children n;
     ns_left := ns_left n; ns_right := r; consumed := consumed n |}.

Definition ns_set_consumed (n : NestedSet) : NestedSet :=
  {| ns_id := ns_id n; ns_label := ns_label n; cursor_id := cursor_id n;
     ns_parent := ns_parent n; ns_children := ns_children n;
     ns_left := ns_left n; ns_right := ns_right n; consumed := true |}.

(** Modelled from the spec: [NestedSet.compute_anchors()]: "each node receives
    left on entry and right after all children are visited, classic nested-set
    numbering".  The recursion follows the [children] links; [fuel] bounds its
    depth, and running out of it is Python's [RecursionError]. *)
Fixpoint anchors_from (fuel : nat) (h : list NestedSet) (a : nat) (l : Z)
  : option (list NestedSet * Z) :=
  match fuel with
  | O => None
  | S f =>
      let h1 := ns_update a (ns_set_left l) h in
      let fix kids (cs : list nat) (h : list NestedSet) (r : Z) :=
        match cs with
        | [] => Some (h, r)
        | c :: cs' =>
            match anchors_from f h c r with
            | None => None
            | Some (h', cr) => kids cs' h' (cr + 1)
            end
        end in
      match kids (ns_children (ns_at h a)) h1 (l + 1) with
      | None => None
      | Some (h2, r) => Some (ns_update a (ns_set_right r) h2, r)
      end
  end.

(** Modelled from the spec: [NestedSet.all_ids]: the token identifiers of the
    node and of its descendants, the node first. *)
Fixpoint all_ids_from (fuel : nat) (h : list NestedSet) (a : nat) : option (list string) :=
  match fuel with
  | O => None
  | S f =>
      let fix kids (cs : list nat) :=
        match cs with
        | [] => Some []
        | c :: cs' =>
            match all_ids_from f h c, kids cs' with
            | Some x, Some y => Some (x ++ y)
            | _, _ => None
            end
        end in
      match kids (ns_children (ns_at h a)) with
      | None => None
      | Some r => Some (ns_id (ns_at h a) :: r)
      end
  end.

(** The depth Python allows a recursion to reach. *)
Definition recursion_limit : nat := 1000.

Definition compute_anchors (root : nat) : M Table unit :=
  h <- gets ns_heap ;;
  match anchors_from recursion_limit h root 1 with
  | None => raise RecursionError
  | Some (h', _) => modify (set_ns_heap h')
  end.

Definition all_ids (root : nat) : M Table (list string) :=
  h <- gets ns_heap ;;
  match all_ids_from recursion_limit h root with
  | None => raise RecursionError
  | Some l => ret l
  end.

(** The linking loop of [write_token_deps] over the buffered tokens of one
    segment: returns [nested_set_of_previous_head].  [tokens] is the
    dictionary without its [Info] key; [tokens[token_id]] is the entry the
    iteration is at. *)
Definition link_tokens (tokens : Dict.t DepEntry) : M Table (option nat) :=
  fold_each tokens None (fun nested_set_of_previous_head item =>
    let attrs := snd item in
    let hid := head_id attrs in
    let found :=
      if String.eqb hid "" then Some (nested_set attrs)
      else nested_set_of_previous_head in
    match Dict.get hid tokens with
    | None => ret found
    | Some head =>
        modify (fun t => set_ns_heap (ns_add (nested_set head) (nested_set attrs) (ns_heap t)) t) ;;;
        ret found
    end).

(** [tokens.pop(id)], raising [KeyError] when the key is gone. *)
Definition pop_or_raise {S V} (k : string) (d : Dict.t V) : M S (Dict.t V) :=
  if Dict.mem k d then ret (Dict.pop k d) else raise (KeyError k).

(** One iteration of the loop of [write_token_deps] over [table.deps.items()],
    for a segment other than [working_on].  Returns whether the segment is to
    be appended to [empty_segments].  The failed [assert] is caught by the
    bare [except], which continues with the next segment. *)
Definition write_segment_deps (tokens : Dict.t DepEntry) : M Table bool :=
  nested_set_of_previous_head <- link_tokens tokens ;;
  anchor <- gets anchor_right ;;
  match nested_set_of_previous_head with
  | None => ret false
  | Some root =>
      h <- gets ns_heap ;;
      if consumed (ns_at h root) then ret false
      else
        compute_anchors root ;;;
        ids <- all_ids root ;;
        for_each ids (fun id =>
          attrs <- getitem id tokens ;;
          h <- gets ns_heap ;;
          let n := ns_at h (nested_set attrs) in
          if consumed n then ret tt
          else
            let parent_id :=
              match ns_parent n with
              | None => ""
              | Some p => str_Z (cursor_id (ns_at h p))
              end in
            write [parent_id; str_Z (cursor_id n); ns_label n;
                   str_Z (anchor + ns_left n); str_Z (anchor + ns_right n)] ;;;
            modify (fun t => set_ns_heap (ns_update (nested_set attrs) ns_set_consumed (ns_heap t)) t)) ;;;
        h <- gets ns_heap ;;
        modify (set_anchor_right (anchor + ns_right (ns_at h root))) ;;;
        modify (fun t => set_ns_heap (ns_update root ns_set_consumed (ns_heap t)) t) ;;;
        ids <- all_ids root ;;
        rest <- fold_each ids tokens (fun toks id => pop_or_raise id toks) ;;
        ret (match rest with [] => true | _ => false end)
  end.

(** The body of the loop over [table.deps.items()]: the segment being worked
    on is left alone; the accumulator is [empty_segments]. *)
Definition visit_segment (working_on : string) (empty_segments : list string)
    (item : string * Dict.t DepEntry) : M Table (list string) :=
  let segment_id := fst item in
  if String.eqb segment_id working_on then ret empty_segments
  else
    is_empty <- write_segment_deps (snd item) ;;
    ret (if is_empty : bool then empty_segments ++ [segment_id] else empty_segments).

(** "Clear the segments with no tokens left": [table.deps.pop(s_id)]. *)
Definition evict_segment (s_id : string) : M Table unit :=
  d <- gets deps ;;
  d' <- pop_or_raise s_id d ;;
  modify (set_deps d').

(** [Parser.write_token_deps(table, working_on)]. *)
Definition write_token_deps (working_on : string) : M Table unit :=
  segments <- gets deps ;;
  empty_segments <- fold_each segments [] (visit_segment working_on) ;;
  for_each empty_segments evict_segment.

(* ================================================================== *)
(** ** The parser object *)

(** [self] of [Parser], the documents the reader hands over, and the local
    variables of [generate_upload_files_generator] that outlive one
    iteration ([has_frame_range], [current_document]).  A table is reached
    through its key in [tables] at every use: no key is ever bound to a second
    table object except the ["<entity>_<column>"] keys of [aligned_entity],
    which differ from ["token"] and ["segment"], the two keys the generator
    also holds through local variables. *)
Record Parser : Type := {
  char_range_cur : Z;
  frame_range_cur : Z;
  tables : Dict.t Table;
  doc_frames : Dict.t (Z * Z);
  config : Config;
  doc_store : list Document;
  has_frame_range : bool;
  current_document : option nat
}.

Definition set_char_range_cur (c : Z) (p : Parser) : Parser :=
  {| char_range_cur := c; frame_range_cur := frame_range_cur p; tables := tables p;
     doc_frames := doc_frames p; config := config p; doc_store := doc_store p;
     has_frame_range := has_frame_range p; current_document := current_document p |}.

Definition set_frame_range_cur (c : Z) (p : Parser) : Parser :=
  {| char_range_cur := char_range_cur p; frame_range_cur := c; tables := tables p;
     doc_frames := doc_frames p; config := config p; doc_store := doc_store p;
     has_frame_range := has_frame_range p; current_document := current_document p |}.

Definition set_tables (t : Dict.t Table) (p : Parser) : Parser :=
  {| char_range_cur := char_range_cur p; frame_range_cur := frame_range_cur p; tables := t;
     doc_frames := doc_frames p; config := config p; doc_store := doc_store p;
     has_frame_range := has_frame_range p; current_document := current_document p |}.

Definition set_doc_frames (d : Dict.t (Z * Z)) (p : Parser) : Parser :=
  {| char_range_cur := char_range_cur p; frame_range_cur := frame_range_cur p; tables := tables p;
     doc_frames := d; config := config p; doc_store := doc_store p;
     has_frame_range := has_frame_range p; current_document := current_document p |}.

Definition set_config (c : Config) (p : Parser) : Parser :=
  {| char_range_cur := char_range_cur p; frame_range_cur := frame_range_cur p; tables := tables p;
     doc_frames := doc_frames p; config := c; doc_store := doc_store p;
     has_frame_range := has_frame_range p; current_document := current_document p |}.

Definition set_doc_store (d : list Document) (p : Parser) : Parser :=
  {| char_range_cur := char_range_cur p; frame_range_cur := frame_range_cur p; tables := tables p;
     doc_frames := doc_frames p; config := config p; doc_store := d;
     has_frame_range := has_frame_range p; current_document := current_document p |}.

Definition set_has_frame_range (b : bool) (p : Parser) : Parser :=
  {| char_range_cur := char_range_cur p; frame_range_cur := frame_range_cur p; tables := tables p;
     doc_frames := doc_frames p; config := config p; doc_store := doc_store p;
     has_frame_range := b; current_document := current_document p |}.

Definition set_current_document (d : option nat) (p : Parser) : Parser :=
  {| char_range_cur := char_range_cur p; frame_range_cur := frame_range_cur p; tables := tables p;
     doc_frames := doc_frames p; config := config p; doc_store := doc_store p;
     has_frame_range := has_frame_range p; current_document := d |}.

(** [Parser.__init__]. *)
Definition Parser_new (cfg : Config) (documents : list Document) : Parser :=
  {| char_range_cur := 1; frame_range_cur := 0; tables := []; doc_frames := [];
     config := cfg; doc_store := documents; has_frame_range := false;
     current_document := None |}.

(** Run a computation on the table bound to [key]: [self._tables[key]] raises
    [KeyError] when there is none; what the computation did to the table
    stays done when it raises. *)
Definition on_table {A} (key : string) (m : M Table A) : M Parser A :=
  fun p =>
    match Dict.get key (tables p) with
    | None => (Raise (KeyError key), p)
    | Some t => let (r, t') := m t in (r, set_tables (Dict.set key t' (tables p)) p)
    end.

(** [self._tables[key] = table]. *)
Definition bind_table (key : string) (t : Table) : M Parser unit :=
  modify (fun p => set_tables (Dict.set key t (tables p)) p).

(** The document object at an address. *)
Definition doc_at (p : Parser) (a : nat) : Document := nth a (doc_store p) Document_new.

Definition update_doc (a : nat) (f : Document -> Document) : M Parser unit :=
  modify (fun p => set_doc_store (set_nth (doc_store p) a (f (doc_at p a))) p).

(** The literal [f"[{low},{up})"]. *)
Definition range_str (low up : Z) : string := fmt ["["; str_Z low; ","; str_Z up; ")"].

(** [o[key]] on an entry of [current_entity]. *)
Definition entry {S A} (key : string) (o : option A) : M S A :=
  match o with Some a => ret a | None => raise (KeyError key) end.

(* ================================================================== *)
(** ** [upload_new_doc] *)

(** [meta._value] / [attr.value] as a mapping: only [Meta] holds one. *)
Definition value_dict {S} (a : Attribute) : M S (Dict.t string) :=
  match a with Meta _ d => ret d | _ => raise AttributeError end.

(** [name in attr.value]: a key of a mapping, a substring of a text. *)
Definition value_contains (a : Attribute) (name : string) : bool :=
  match a with
  | Meta _ d => Dict.mem name d
  | Categorical _ v | Text _ v | Dependency _ v _ => is_some (String.index 0 name v)
  end.

(** [Parser.upload_new_doc(doc, self._tables["document"], doc_name)]. *)
Definition upload_new_doc (doc : nat) (doc_name : string) : M Parser unit :=
  table <- (tabs <- gets tables ;; getitem "document" tabs) ;;
  d <- gets (fun p => doc_at p doc) ;;
  cur <- gets char_range_cur ;;
  cfg <- gets config ;;
  let meta := Dict.get "meta" (doc_attributes d) in
  let col_names := [fmt [doc_name; "_id"]; "char_range"] in
  let cols := [str_Z (cursor table); range_str (char_range_start d) (cur - 1)] in
  framed <-
    (if Z.eqb (snd (doc_frame_range d)) 0 then ret (col_names, cols)
     else
       doc_frame_id <-
         match meta with
         | Some m => v <- value_dict m ;;
                     ret (match Dict.get "name" v with Some n => n | None => doc_id d end)
         | None => ret (doc_id d)
         end ;;
       modify (fun p => set_doc_frames (Dict.set doc_frame_id (doc_frame_range d) (doc_frames p)) p) ;;;
       ret (col_names ++ ["frame_range"],
            cols ++ [range_str (fst (doc_frame_range d)) (snd (doc_frame_range d))])) ;;
  named <-
    match meta with
    | None => ret (str_Z (cursor table), framed)
    | Some m =>
        v <- value_dict m ;;
        let name_doc := match Dict.get "name" v with
                        | Some n => n | None => str_Z (cursor table) end in
        ret (name_doc,
             match v with
             | [] => framed
             | _ => (fst framed ++ ["meta"], snd framed ++ [strip (value_str m)])
             end)
    end ;;
  let name_doc := fst named in
  let with_attrs :=
    fold_left (fun acc kv =>
      if String.eqb (fst kv) "meta" then acc
      else (fst acc ++ [lower (fst kv)], snd acc ++ [strip (value_str (snd kv))]))
      (doc_attributes d) (snd named) in
  let media_slots := mediaSlots cfg in
  final <-
    match media_slots with
    | [] => ret with_attrs
    | _ =>
        let media := match Dict.get "media" (doc_attributes d) with
                     | Some a => a | None => Meta "dummy" [] end in
        for_each media_slots (fun slot =>
          if negb (match isOptional (snd slot) with Some false => true | _ => false end)
             || value_contains media (fst slot)
          then ret tt
          else raise (AssertionError "Filename missing for required media")) ;;;
        ret (if existsb (fun x => opt_eqb (mediaType x) "audio" || opt_eqb (mediaType x) "video")
                        (Dict.values media_slots)
             then (fst with_attrs ++ ["name"], snd with_attrs ++ [name_doc])
             else with_attrs)
    end ;;
  on_table "document"
    ((if Z.eqb (cursor table) 1 then write (fst final) else ret tt) ;;;
     write (snd final) ;;;
     cursor_incr).

(* ================================================================== *)
(** ** Span Aggregator: [aligned_entity] and [close_aligned_entity] *)

(** Modelled from the spec: the constructor [LookupTable(entity, attribute,
    path, config)]: a "two-column (id, original_text)" table named
    ["<entity>_<attribute>"] whose first line is its header. *)
Definition LookupTable_new (entity attribute : string) : Table :=
  set_rows [[fmt [attribute; "_id"]; attribute]]
           (Table_new (fmt [entity; "_"; attribute]) None).

(** [layer_attributes] of [aligned_entity]: the attributes of the first layer
    whose lower-cased name is [aname_low]. *)
Definition layer_name_of (cfg : Config) (aname_low : string) : option string :=
  find (fun x => String.eqb (lower x) aname_low) (Dict.keys (layer cfg)).

Definition layer_attributes_of (cfg : Config) (layer_name : option string) : Dict.t AttrCfg :=
  match layer_name with
  | None => []
  | Some n => match Dict.get n (layer cfg) with
              | Some l => l_attributes l
              | None => []
              end
  end.

(** The block of [aligned_entity] that creates the table of the entity on
    its first occurrence. *)
Definition create_entity_table (aname_low : string) (layer_name : option string)
    (layer_attributes : Dict.t AttrCfg) (spec : AlignedSpec) (has_frame : bool)
  : M Parser unit :=
  cfg <- gets config ;;
  bind_table aname_low
    (Table_new aname_low
       (match layer_name with Some n => get_ci_key (layer cfg) n | None => None end)) ;;;
  let first_line := match readlines (fn spec) with l :: _ => l | [] => "" end in
  let names := tl (split tab (rstrip first_line)) in
  on_table aname_low (modify (set_col_names names)) ;;;
  entity_col_names <-
    fold_each names [fmt [aname_low; "_id"]] (fun acc cn =>
      match Dict.get cn layer_attributes with
      | None => raise (AssertionError "ReferenceError: attribute not found for entity")
      | Some attribute_props =>
          if opt_eqb (a_type attribute_props) "text" then
            bind_table (fmt [aname_low; "_"; cn]) (LookupTable_new aname_low cn) ;;;
            ret (acc ++ [fmt [cn; "_id"]])
          else ret (acc ++ [cn])
      end) ;;
  on_table aname_low
    (write (entity_col_names ++ ["char_range"]
            ++ (if has_frame then ["frame_range"] else []))).

(** The label loop of [aligned_entity] for one labels-typed column: every
    label of the comma-separated text gets the next free index of
    [table.labels] on first sight and contributes
    [int("1" + "0" * (idx - 1), 2)] to [bits]. *)
Definition pack_labels (aname_low : string) (text : string) : M Parser Z :=
  fold_each (split ","%char text) 0 (fun bits label =>
    let l := strip label in
    lbls <- on_table aname_low (gets labels) ;;
    let idx := match Dict.get l lbls with
               | Some i => i
               | None => Z.of_nat (List.length lbls)
               end in
    on_table aname_low (modify (fun t => set_labels (Dict.set l idx (labels t)) t)) ;;;
    ret (Z.lor bits (int2_one_zeros (idx - 1)))).

(** The block of [aligned_entity] under "No longer processing the previous
    entity": writes the row of [ce]. *)
Definition write_entity (aname_low : string) (layer_attributes : Dict.t AttrCfg)
    (has_frame : bool) (ce : Entity) : M Parser unit :=
  entity_cols <- entry "cols" (e_cols ce) ;;
  names <- on_table aname_low (gets col_names) ;;
  entity_cols <-
    fold_each (enumerate 0 names) entity_cols (fun cols item =>
      let n := fst item in
      let ctype := attr_type layer_attributes (snd item) in
      if negb (opt_eqb ctype "labels") then ret cols
      else
        match index cols n with
        | None => raise IndexError
        | Some (VInt _) => raise AttributeError
        | Some (VStr text) =>
            bits <- pack_labels aname_low text ;;
            ret (set_index cols n (VStr (bin bits)))
        end) ;;
  cur <- gets char_range_cur ;;
  range_low <- entry "range_low" (e_range_low ce) ;;
  let range_up := cur - 1 in
  let range_up := if range_up <=? range_low then range_low + 1 else range_up in
  table_cursor <- on_table aname_low (gets cursor) ;;
  let cols_to_write :=
    [str_Z table_cursor] ++ map val_str entity_cols ++ [range_str range_low range_up] in
  cols_to_write <-
    (if has_frame : bool then
       lower_frame_range <- entry "frame_range_start" (e_frame_range_start ce) ;;
       upper_frame_range <- gets frame_range_cur ;;
       let upper_frame_range :=
         if upper_frame_range <=? lower_frame_range then lower_frame_range + 1
         else upper_frame_range in
       ret (cols_to_write ++ [range_str lower_frame_range upper_frame_range])
     else ret cols_to_write) ;;
  on_table aname_low (write cols_to_write ;;; cursor_incr).

(** The attribute a column of the reference file stands for:
    [next((x for x in layer_attributes if x.lower() == col_name or
    x.lower() + "_id" == col_name), col_name)]. *)
Definition column_attribute (layer_attributes : Dict.t AttrCfg) (col_name : string) : string :=
  match find (fun x => String.eqb (lower x) col_name
                       || String.eqb (fmt [lower x; "_id"]) col_name)
             (Dict.keys layer_attributes) with
  | Some x => x
  | None => col_name
  end.

(** The columns of the matching line of the reference file, resolved. *)
Definition read_entity_cols (aname_low : string) (layer_attributes : Dict.t AttrCfg)
    (fields : list string) : M Parser (list PyVal) :=
  fold_each (enumerate 0 fields) [] (fun cols item =>
    let col := snd item in
    names <- on_table aname_low (gets col_names) ;;
    col_name <- match index names (fst item) with
                | Some c => ret c
                | None => raise IndexError
                end ;;
    let attr_name := column_attribute layer_attributes col_name in
    let ctype := attr_type layer_attributes attr_name in
    v <- (if opt_eqb ctype "text"
          then i <- on_table (fmt [aname_low; "_"; col_name]) (get_id (strip col)) ;;
               ret (VInt i)
          else ret (VStr (strip col))) ;;
    (if opt_eqb ctype "categorical"
     then on_table aname_low (add_categorical attr_name (strip col))
     else ret tt) ;;;
    ret (cols ++ [v])).

(** The [while True] loop over the lines of the reference file, from its
    first line on: stops at the first line whose first field is [fk]. *)
Fixpoint find_entity (aname_low : string) (layer_attributes : Dict.t AttrCfg)
    (fk : string) (lines : list string) (ce : Entity) : M Parser Entity :=
  match lines with
  | [] => ret ce
  | line :: rest =>
      let fields := split tab line in
      if String.eqb (strip (hd "" fields)) fk then
        cols <- read_entity_cols aname_low layer_attributes (tl fields) ;;
        cur <- gets char_range_cur ;;
        ret {| e_id := e_id ce; e_cols := Some cols; e_range_low := Some cur;
               e_frame_range_start := e_frame_range_start ce |}
      else find_entity aname_low layer_attributes fk rest ce
  end.

(** [Parser.aligned_entity(entity, path, attribute, aligned_entities)]. *)
Definition aligned_entity (attribute : Attribute) (aligned_entities : Dict.t AlignedSpec)
  : M Parser unit :=
  let aname_low := lower (attr_name attribute) in
  match attribute with
  | Text _ value =>
      cfg <- gets config ;;
      let layer_name := layer_name_of cfg aname_low in
      let layer_attributes := layer_attributes_of cfg layer_name in
      spec <- getitem aname_low aligned_entities ;;
      let has_frame := is_time_anchored cfg (contains spec) in
      tabs <- gets tables ;;
      (if Dict.mem aname_low tabs then ret tt
       else create_entity_table aname_low layer_name layer_attributes spec has_frame) ;;;
      let fk := strip value in
      ce <- on_table aname_low (gets current_entity) ;;
      if String.eqb fk (match e_id ce with Some i => i | None => "" end) then ret tt
      else
        (if entity_truthy ce
         then write_entity aname_low layer_attributes has_frame ce
         else ret tt) ;;;
        ce <-
          (if String.eqb fk "" || String.eqb (strip fk) "_" then ret Entity_empty
           else
             ce <- find_entity aname_low layer_attributes fk (readlines (fn spec))
                     {| e_id := Some fk; e_cols := None; e_range_low := None;
                        e_frame_range_start := None |} ;;
             if has_frame then
               frame <- gets frame_range_cur ;;
               ret {| e_id := e_id ce; e_cols := e_cols ce; e_range_low := e_range_low ce;
                      e_frame_range_start := Some frame |}
             else ret ce) ;;
        on_table aname_low (modify (set_current_entity ce))
  | _ => raise (AssertionError "TypeError: foreign key should be a simple text")
  end.

(** [Parser.close_aligned_entity(name, path, aligned_entities)]. *)
Definition close_aligned_entity (name : string) (aligned_entities : Dict.t AlignedSpec)
  : M Parser unit :=
  aligned_entity (Text name "dummy") aligned_entities ;;;
  tabs <- gets tables ;;
  if Dict.mem name tabs
  then on_table name (modify (set_current_entity Entity_empty))
  else ret tt.

(* ================================================================== *)
(** ** Verticalization Pipeline: [generate_upload_files_generator] *)

(** [d[k] = None] on a dictionary used as an ordered set of names. *)
Definition add_name (k : string) (l : list string) : list string :=
  if str_in k l then l else l ++ [k].

(** [token_have_dependencies]: set to [False] before the loop; the only
    assignment that would set it ([# token_have_dependencies = True], in the
    [Dependency] branch) is commented out. *)
Definition token_have_dependencies : bool := false.

Section Generator.

(** The arguments of the call and the names and offset it computes before
    the loop. *)
Variable aligned_entities : Dict.t AlignedSpec.
Variable aligned_entities_segment : Dict.t AlignedSpec.
Variable default_doc : Dict.t string.
Variables doc_name seg_name tok_name : string.
Variable offset_frame_range : Z.
Variable char_range_start0 : Z.

(** The scan of the first non-empty segment that freezes the columns of
    the token table. *)
Definition scan_token (token : Token) (acc : list string * list string)
  : list string * list string :=
  fold_left (fun acc kv =>
    let attr_name := fst kv in
    let attr_value := snd kv in
    if negb (value_truthy attr_value) then acc
    else
      let non_null := add_name attr_name (fst acc) in
      if is_Dependency attr_value || Dict.mem (lower attr_name) aligned_entities
      then (non_null, snd acc)
      else if is_Text attr_value || is_Meta attr_value
      then (non_null, add_name (fmt [attr_name; "_id"]) (snd acc))
      else (non_null, add_name attr_name (snd acc)))
    (tok_attributes token) acc.

Definition freeze_token_columns (segment : Segment) : M Parser unit :=
  token_table <- on_table "token" (gets (fun t => t)) ;;
  match non_null_attributes token_table with
  | [] =>
      if Z.eqb (cursor token_table) 1 then
        (if existsb (fun t => is_some (tok_frame_range t)) (seg_tokens segment)
         then modify (set_has_frame_range true) else ret tt) ;;;
        let scanned :=
          fold_left (fun acc t => scan_token t acc) (seg_tokens segment)
                    ([], [fmt [tok_name; "_id"]]) in
        on_table "token" (modify (set_non_null_attributes (fst scanned))) ;;;
        has_frame <- gets has_frame_range ;;
        let col_names := add_name "char_range" (snd scanned) in
        let col_names := if has_frame : bool then add_name "frame_range" col_names
                         else col_names in
        let col_names := add_name (fmt [seg_name; "_id"]) col_names in
        on_table "token" (write col_names)
      else ret tt
  | _ => ret tt
  end.

(** The [Dependency] branch of the token loop. *)
Definition buffer_dependency (segment : Segment) (token : Token)
    (name head label : string) : M Parser unit :=
  tabs <- gets tables ;;
  (if Dict.mem name tabs then ret tt
   else
     bind_table name (Table_new name None) ;;;
     on_table name (write ["head"; "dependent"; "udep"; "left_anchor"; "right_anchor"])) ;;;
  on_table name (modify (fun t =>
    if Dict.mem (seg_id segment) (deps t) then t
    else set_deps (Dict.set (seg_id segment) [] (deps t)) t)) ;;;
  (* [deps] holds its [Info] key, so it is never empty *)
  (if String.eqb head "" then on_table name (write_token_deps (seg_id segment))
   else ret tt) ;;;
  token_cursor <- on_table "token" (gets cursor) ;;
  on_table name
    (a <- ns_alloc (NestedSet_new (tok_id token) label token_cursor) ;;
     modify (fun t =>
       let d := match Dict.get (seg_id segment) (deps t) with
                | Some d => d | None => [] end in
       set_deps (Dict.set (seg_id segment)
                   (Dict.set (tok_id token) {| head_id := head; nested_set := a |} d)
                   (deps t)) t)) ;;;
  on_table name cursor_incr.

(** The dispatch of one attribute of a token: returns [cols]. *)
Definition dispatch_attribute (segment : Segment) (token : Token)
    (cols : list string) (attr_name : string) : M Parser (list string) :=
  match Dict.get attr_name (tok_attributes token) with
  | None => ret (cols ++ [""])
  | Some attribute =>
      if Dict.mem (lower attr_name) aligned_entities && is_Text attribute then
        aligned_entity attribute aligned_entities ;;; ret cols
      else
        match attribute with
        | Categorical _ v =>
            on_table "token" (add_categorical attr_name v) ;;;
            ret (cols ++ [v])
        | Text n _ | Meta n _ =>
            let name := fmt [tok_name; "_"; n] in
            tabs <- gets tables ;;
            (if Dict.mem name tabs then ret tt
             else bind_table name (LookupTable_new tok_name n)) ;;;
            id <- on_table name (get_id (value_str attribute)) ;;
            ret (cols ++ [str_Z id])
        | Dependency n head label =>
            buffer_dependency segment token n head label ;;; ret cols
        end
  end.

(** One iteration of [for token in segment.tokens]; the accumulator is
    [frame_range_segment_start]. *)
Definition process_token (segment : Segment) (frame_range_segment_start : option Z)
    (token : Token) : M Parser (option Z) :=
  token_cursor <- on_table "token" (gets cursor) ;;
  non_null <- on_table "token" (gets non_null_attributes) ;;
  cols <- fold_each non_null [str_Z token_cursor] (dispatch_attribute segment token) ;;
  for_each (Dict.keys aligned_entities) (fun aligned =>
    if str_in aligned (map lower non_null) then ret tt
    else close_aligned_entity aligned aligned_entities) ;;;
  left_char_range <- gets char_range_cur ;;
  form <- getitem "form" (tok_attributes token) ;;
  modify (fun p => set_char_range_cur
    (char_range_cur p + (value_len form - (if spaceAfter token then 0 else 1))) p) ;;;
  cur <- gets char_range_cur ;;
  let cols := cols ++ [range_str left_char_range cur] in
  modify (fun p => set_char_range_cur (char_range_cur p + 1) p) ;;;
  framed <-
    match tok_frame_range token with
    | None => ret (cols, frame_range_segment_start)
    | Some (l, r) =>
        modify (set_has_frame_range true) ;;;
        let left_frame_range := l + offset_frame_range in
        let right_frame_range := r + offset_frame_range in
        let right_frame_range :=
          if right_frame_range <=? left_frame_range then left_frame_range + 1
          else right_frame_range in
        current <- gets current_document ;;
        match current with
        | Some d =>
            update_doc d (fun doc =>
              {| doc_id := doc_id doc; doc_attributes := doc_attributes doc;
                 char_range_start := char_range_start doc;
                 doc_frame_range := (fst (doc_frame_range doc), offset_frame_range + r) |})
        | None => ret tt
        end ;;;
        modify (set_frame_range_cur right_frame_range) ;;;
        ret (cols ++ [range_str left_frame_range right_frame_range],
             match frame_range_segment_start with
             | None => Some (offset_frame_range + l)
             | Some s => Some s
             end)
    end ;;
  on_table "token" (write (fst framed ++ [seg_id segment]) ;;; cursor_incr) ;;;
  ret (snd framed).

(** The segment row, written after the tokens of the segment: returns
    [cols], which the full-text-search block reuses. *)
Definition write_segment (segment : Segment) (char_range_segment_start : Z)
    (frame_range_segment_start : option Z) : M Parser (list string) :=
  segment_table <- on_table "segment" (gets (fun t => t)) ;;
  has_frame <- gets has_frame_range ;;
  match col_names segment_table with
  | [] =>
      let col_names :=
        [fmt [seg_name; "_id"]; "char_range"]
        ++ (if has_frame : bool then ["frame_range"] else [])
        ++ filter (fun a => negb (Dict.mem a aligned_entities_segment))
                  (Dict.keys (seg_attributes segment)) in
      on_table "segment" (write col_names ;;; modify (set_col_names col_names))
  | _ => ret tt
  end ;;;
  cur <- gets char_range_cur ;;
  let cols := [seg_id segment; range_str char_range_segment_start (cur - 1)] in
  cols <-
    (if has_frame : bool then
       frame_range_segment_end <- gets frame_range_cur ;;
       match frame_range_segment_start with
       | None => raise TypeError
       | Some s =>
           let e := if frame_range_segment_end <=? s then s + 1
                    else frame_range_segment_end in
           ret (cols ++ [range_str s e])
       end
     else ret cols) ;;
  cols <-
    fold_each (Dict.values (seg_attributes segment)) cols (fun cols a =>
      if Dict.mem (lower (attr_name a)) aligned_entities_segment then
        aligned_entity a aligned_entities_segment ;;; ret cols
      else
        names <- on_table "segment" (gets col_names) ;;
        if negb (str_in (attr_name a) names) then ret cols
        else
          on_table "segment" (add_categorical (attr_name a) (value_str a)) ;;;
          ret (cols ++ [value_str a])) ;;
  for_each (Dict.keys aligned_entities_segment) (fun aligned =>
    if str_in aligned (map lower (Dict.keys (seg_attributes segment))) then ret tt
    else close_aligned_entity aligned aligned_entities_segment) ;;;
  on_table "segment" (write cols ;;; cursor_incr) ;;;
  ret cols.

(** The lexemes of one token: [f"'{i}{vl}':{n}"] for the [i]-th attribute
    kept, a [Dependency] being kept twice. *)
Definition token_lexemes (non_null : list string) (n : Z) (token : Token)
  : M Parser (list string) :=
  attributes_to_fts <-
    fold_each non_null [] (fun acc an =>
      a <- getitem an (tok_attributes token) ;;
      if (is_Categorical a || is_Text a) && negb (Dict.mem (lower an) aligned_entities)
      then ret (acc ++ [a])
      else if is_Dependency a then ret (acc ++ [a; a])
      else ret acc) ;;
  ret (map (fun ia => fmt ["'"; str_Z (fst ia); double_quotes (value_str (snd ia));
                           "':"; str_Z n])
           (enumerate 1 attributes_to_fts)).

(** The vector of a segment: the lexemes of its tokens, joined by spaces. *)
Definition segment_vector (segment : Segment) : M Parser string :=
  non_null <- on_table "token" (gets non_null_attributes) ;;
  vector <-
    fold_each (enumerate 1 (seg_tokens segment)) [] (fun vector item =>
      l <- token_lexemes non_null (fst item) (snd item) ;;
      ret (vector ++ l)) ;;
  ret (join " " vector).

(** The "FTS VECTOR if no dependencies" block. *)
Definition fts_vector (segment : Segment) (cols : list string) : M Parser unit :=
  if negb token_have_dependencies then
    tabs <- gets tables ;;
    (if Dict.mem "fts_vector" tabs then ret tt
     else bind_table "fts_vector" (Table_new "fts_vector" None)) ;;;
    vector <- segment_vector segment ;;
    let cols := firstn 1 cols ++ [vector] in
    on_table "fts_vector"
      (c <- gets cursor ;;
       (if Z.eqb c 1 then write [fmt [seg_name; "_id"]; "vector"] else ret tt) ;;;
       write cols ;;;
       cursor_incr)
  else ret tt.

(** Everything the loop does with a segment that is not empty. *)
Definition process_segment (segment : Segment) (char_range_segment_start : Z)
  : M Parser unit :=
  freeze_token_columns segment ;;;
  frame_range_segment_start <-
    fold_each (seg_tokens segment) None (process_token segment) ;;
  cols <- write_segment segment char_range_segment_start frame_range_segment_start ;;
  fts_vector segment cols.

(** One iteration of [for segment, doc in self.parse_generator(...)]. *)
Definition process_item (item : Item) : M Parser unit :=
  char_range_segment_start <- gets char_range_cur ;;
  match snd item with
  | None => ret tt
  | Some doc =>
      current <- gets current_document ;;
      if match current with Some c => Nat.eqb c doc | None => false end then ret tt
      else
        match current with
        | Some c => upload_new_doc c doc_name
        | None => ret tt
        end ;;;
        modify (set_current_document (Some doc)) ;;;
        update_doc doc (fun d =>
          {| doc_id := doc_id d; doc_attributes := doc_attributes d;
             char_range_start := char_range_segment_start;
             doc_frame_range := (offset_frame_range, snd (doc_frame_range d)) |})
  end ;;;
  match fst item with
  | None => ret tt
  | Some segment => process_segment segment char_range_segment_start
  end.

(** "Write any pending dependencies". *)
Definition flush_dependencies : M Parser unit :=
  if token_have_dependencies then
    tabs <- gets tables ;;
    for_each (Dict.keys tabs) (fun k =>
      d <- on_table k (gets deps) ;;
      match d with
      | [] => ret tt
      | _ => on_table k (write_token_deps "")
      end)
  else ret tt.

(** The fallback document: "No new document marker found when parsing:
    create an all-encompassing one". *)
Definition last_document : M Parser nat :=
  current <- gets current_document ;;
  match current with
  | Some d => ret d
  | None =>
      a <- gets (fun p => List.length (doc_store p)) ;;
      modify (fun p => set_doc_store (doc_store p ++ [
        {| doc_id := ""; 
           doc_attributes := match default_doc with
                             | [] => []
                             | _ => [("meta", Meta "meta" default_doc)]
                             end;
           char_range_start := char_range_start0;
           doc_frame_range := (0, 0) |}]) p) ;;;
      modify (set_current_document (Some a)) ;;;
      ret a
  end.

(** The values observed for the categorical attributes go back into the
    schema. *)
Definition add_values (l a : string) (vals : list string) (cfg : Config) : Config :=
  {| layer :=
       map (fun kv =>
         if String.eqb (fst kv) l then
           (fst kv,
            {| l_attributes :=
                 map (fun av =>
                   if String.eqb (fst av) a then
                     (fst av,
                      {| a_type := a_type (snd av); a_isGlobal := a_isGlobal (snd av);
                         a_values :=
                           Some (fold_left (fun acc v => add_name v acc) vals
                                   (match a_values (snd av) with
                                    | Some old => old | None => [] end)) |})
                   else av) (l_attributes (snd kv));
               l_time_anchored := l_time_anchored (snd kv);
               l_nlabels := l_nlabels (snd kv) |})
         else kv) (layer cfg);
     firstClass := firstClass cfg;
     mediaSlots := mediaSlots cfg |}.

Definition propagate_categorical : M Parser unit :=
  cfg <- gets config ;;
  for_each (layer cfg) (fun llp =>
    first_class <- entry "firstClass" (firstClass cfg) ;;
    let table_key :=
      lower (match Dict.get (fst llp) first_class with
             | Some v => v | None => fst llp end) in
    tabs <- gets tables ;;
    match Dict.get table_key tabs with
    | None => ret tt
    | Some tab =>
        for_each (l_attributes (snd llp)) (fun aap =>
          match Dict.get (fst aap) (categorical_values tab) with
          | None | Some [] => ret tt
          | Some vals =>
              if opt_eqb (a_type (snd aap)) "categorical" && negb (a_isGlobal (snd aap))
              then modify (fun p => set_config (add_values (fst llp) (fst aap) vals (config p)) p)
              else ret tt
          end)
    end).

(** The body of [generate_upload_files_generator] from
    [self._tables = self._tables or {...}] on. *)
Definition generate (reader : list Item) : M Parser unit :=
  cfg <- gets config ;;
  tabs <- gets tables ;;
  match tabs with
  | [] =>
      let c := get_ci_key (layer cfg) doc_name in
      modify (set_tables [("document", Table_new doc_name c);
                          ("segment", Table_new seg_name c);
                          ("token", Table_new tok_name c)])
  | _ => ret tt
  end ;;;
  on_table "token" (ret tt) ;;;
  modify (set_has_frame_range false) ;;;
  modify (set_current_document None) ;;;
  for_each reader process_item ;;;
  flush_dependencies ;;;
  for_each (Dict.keys aligned_entities) (fun ename =>
    close_aligned_entity ename aligned_entities) ;;;
  for_each (Dict.keys aligned_entities_segment) (fun ename =>
    close_aligned_entity ename aligned_entities_segment) ;;;
  doc <- last_document ;;
  upload_new_doc doc doc_name ;;;
  propagate_categorical.

End Generator.

(** [config["firstClass"].get(kind, kind).lower()], [kind] when the call's
    configuration has no ["firstClass"]. *)
Definition first_class_name (first_class : option (Dict.t string)) (kind : string) : string :=
  match first_class with
  | None => kind
  | Some fc => lower (match Dict.get kind fc with Some n => n | None => kind end)
  end.

(** [Parser.generate_upload_files_generator(reader, path, default_doc, config,
    aligned_entities, aligned_entities_segment)]; [reader] is what
    [parse_generator] yields and [first_class] is [config.get("firstClass")]. *)
Definition generate_upload_files_generator (reader : list Item)
    (default_doc : Dict.t string) (first_class : option (Dict.t string))
    (aligned_entities aligned_entities_segment : Dict.t AlignedSpec) : M Parser unit :=
  fun p =>
    generate aligned_entities aligned_entities_segment default_doc
      (first_class_name first_class "document")
      (first_class_name first_class "segment")
      (first_class_name first_class "token")
      (frame_range_cur p) (char_range_cur p) reader p.

(* ================================================================== *)
(** ** Finalization: [close_upload_files] *)

(** The text of a table's file: one line per row written, the fields joined
    by tabs. *)
Definition file_text (rs : list (list string)) : string :=
  fmt (map (fun row => fmt [join tab_s row; newline_s]) rs).

(** The header line of the rewrite loop: every column whose lower-cased name
    starts with the lower-cased name of a labels attribute becomes the column
    of that attribute. *)
Definition locate_label_columns (cols : list string) (label_attributes : Dict.t Z)
  : Dict.t Z :=
  fold_left (fun las nc =>
    fold_left (fun las la =>
      if startswith (lower (snd nc)) (lower la) then Dict.set la (fst nc) las else las)
      (Dict.keys las) las)
    (enumerate 0 cols) label_attributes.

(** A data line of the rewrite loop: the bitstring of every located column is
    left-padded with zeros up to [nlabels] characters. *)
Definition pad_label_columns {S} (nlabels : Z) (cols : list string) (label_attributes : Dict.t Z)
  : M S (list string) :=
  fold_each (Dict.values label_attributes) cols (fun cols n =>
    match index cols n with
    | None => raise IndexError
    | Some bits =>
        let bits := if len bits <? nlabels
                    then fmt [zeros (nlabels - len bits); bits] else bits in
        ret (set_index cols n bits)
    end).

(** The loop over the lines of the table's file: the rewritten rows. *)
Definition rewrite_lines {S} (nlabels : Z) (lines : list string) (label_attributes : Dict.t Z)
  : M S (list (list string)) :=
  r <- fold_each lines (label_attributes, []) (fun acc il =>
    let las := fst acc in
    let cols := split tab (rstrip il) in
    match Dict.values las with
    | first :: _ =>
        if Z.eqb first (-1) then
          ret (locate_label_columns cols las, snd acc ++ [cols])
        else
          cols <- pad_label_columns nlabels cols las ;;
          ret (las, snd acc ++ [cols])
    | [] => ret (las, snd acc ++ [cols])
    end) ;;
  ret (snd r).

(** What [close_upload_files] does with one table: [tab.file.close()] first,
    whatever the table holds; returns the rows of the side file
    ["<key>_labels.csv"] when it writes one. *)
Definition close_table (key : string) : M Parser (option (list (list string))) :=
  on_table key (modify (set_closed true)) ;;;
  tab <- on_table key (gets (fun t => t)) ;;
  match labels tab with
  | [] => ret None
  | lbls =>
      let nlabels := Z.of_nat (List.length lbls) in
      let side := ["bit"; "label"] :: map (fun li => [str_Z (snd li); fst li]) lbls in
      cfg <- gets config ;;
      let layer_cfg := match t_config tab with
                       | Some k => Dict.get k (layer cfg)
                       | None => None
                       end in
      match t_config tab with
      | Some k =>
          modify (fun p => set_config
            {| layer := map (fun kv =>
                 if String.eqb (fst kv) k then
                   (fst kv, {| l_attributes := l_attributes (snd kv);
                               l_time_anchored := l_time_anchored (snd kv);
                               l_nlabels := Some nlabels |})
                 else kv) (layer (config p));
               firstClass := firstClass (config p);
               mediaSlots := mediaSlots (config p) |} p)
      | None => ret tt
      end ;;;
      let label_attributes :=
        map (fun nv => (fst nv, -1))
            (filter (fun nv => opt_eqb (a_type (snd nv)) "labels")
                    (match layer_cfg with Some l => l_attributes l | None => [] end)) in
      match label_attributes with
      | [] => ret (Some side)
      | _ =>
          out <- rewrite_lines nlabels (readlines (file_text (rows tab))) label_attributes ;;
          on_table key (modify (set_rows out)) ;;;
          ret (Some side)
      end
  end.

(** [Parser.close_upload_files(path)]: returns the side files written. *)
Definition close_upload_files : M Parser (Dict.t (list (list string))) :=
  tabs <- gets tables ;;
  fold_each (Dict.keys tabs) [] (fun files n =>
    side <- close_table n ;;
    ret (match side with
         | Some s => files ++ [(fmt [n; "_labels.csv"], s)]
         | None => files
         end)).

(** The rows of the table bound to [key], none when there is no such table. *)
Definition rows_of (key : string) (p : Parser) : list (list string) :=
  match Dict.get key (tables p) with
  | Some t => rows t
  | None => []
  end.


(* ================================================================== *)
(** ** Concrete corpora *)

Module Corpus.

(** A schema without layers and without media slots. *)
Definition plain : Config :=
  {| layer := []; firstClass := Some []; mediaSlots := [] |}.

(** A schema that declares the aligned entity [ne] with one labels-typed
    column [tags]. *)
Definition with_ne : Config :=
  {| layer := [("ne", {| l_attributes :=
                           [("tags", {| a_type := Some "labels"; a_isGlobal := false;
                                        a_values := None |})];
                         l_time_anchored := false; l_nlabels := None |})];
     firstClass := Some []; mediaSlots := [] |}.

(** A token with a [form] and further attributes. *)
Definition token (id form : string) (space_after : bool) (more : Dict.t Attribute) : Token :=
  {| tok_id := id; spaceAfter := space_after; tok_frame_range := None;
     tok_attributes := ("form", Text "form" form) :: more |}.

Definition segment (id : string) (attrs : Dict.t Attribute) (toks : list Token) : Segment :=
  {| seg_id := id; seg_attributes := attrs; seg_tokens := toks |}.

(** A line of a tab-separated file. *)
Definition line (fields : list string) : string := fmt [join tab_s fields; newline_s].

(** The reference file of [ne]: three entities and their labels. *)
Definition ne_file : string :=
  fmt [line ["ne_id"; "tags"]; line ["E1"; "a"]; line ["E2"; "b"]; line ["E3"; "a,b,c"]].

Definition ne_entities : Dict.t AlignedSpec :=
  [("ne", {| fn := ne_file; contains := "token" |})].

(** The attribute by which a token refers to an entity of [ne]. *)
Definition ne (key : string) : Dict.t Attribute := [("ne", Text "ne" key)].

Definition head (governor label : string) : Dict.t Attribute :=
  [("head", Dependency "head" governor label)].

(** "Hello World": [Hello] followed by a space, [World] by none. *)
Definition hello_world : list Item :=
  [(Some (segment "s1" [] [token "1" "Hello" true []; token "2" "World" false []]), None)].

(** One segment whose two tokens form the tree [t1 -> t2]. *)
Definition one_tree : list Item :=
  [(Some (segment "s1" [] [token "t1" "a" true (head "" "root");
                           token "t2" "b" true (head "t1" "obj")]), None)].

(** Three tokens, each referring to another entity of [ne]. *)
Definition three_entities : list Item :=
  [(Some (segment "s1" [] [token "1" "a" true (ne "E1"); token "2" "b" true (ne "E2");
                           token "3" "c" true (ne "E3")]), None)].

(** An opening bracket glued to the word after it. *)
Definition bracket : list Item :=
  [(Some (segment "s1" [] [token "1" "(" false []; token "2" "a" true []]), None)].

(** Tokens 1 to 3 refer to [E1], token 4 has no [ne] attribute, token 5
    refers to [E2]. *)
Definition interrupted_run : list Item :=
  [(Some (segment "s1" []
            [token "1" "a" true (ne "E1"); token "2" "b" true (ne "E1");
             token "3" "c" true (ne "E1"); token "4" "d" true [];
             token "5" "e" true (ne "E2")]), None)].

(** Two segments, the first with a [speaker] attribute, the second without. *)
Definition two_segments : list Item :=
  [(Some (segment "s1" [("speaker", Categorical "speaker" "A")] [token "1" "a" true []]), None);
   (Some (segment "s2" [] [token "2" "b" true []]), None)].

(** A token that refers to an entity the reference file does not list. *)
Definition unknown_entity : list Item :=
  [(Some (segment "s1" [] [token "1" "a" true (ne "E9")]), None)].

(** A run of the generator on a fresh parser. *)
Definition run (cfg : Config) (entities : Dict.t AlignedSpec) (reader : list Item)
  : Res unit * Parser :=
  generate_upload_files_generator reader [] None entities [] (Parser_new cfg []).

(** A relation table that buffers one segment without a root: [t1] depends
    on [t2] and [t2] on a token that is not there. *)
Definition rootless : Table :=
  set_deps [("s1", [("t1", {| head_id := "t2"; nested_set := 0%nat |});
                    ("t2", {| head_id := "t9"; nested_set := 1%nat |})])]
    (set_ns_heap [NestedSet_new "t1" "obj" 1; NestedSet_new "t2" "nmod" 2]
       (set_rows [["head"; "dependent"; "udep"; "left_anchor"; "right_anchor"]]
          (Table_new "head" None))).

(** The parser after a token has referred to [E9], which the reference file
    of [ne] does not list. *)
Definition after_unknown : Parser :=
  snd (aligned_entity (Text "ne" "E9") ne_entities (Parser_new with_ne [])).

(** A parser whose three first-class tables exist: what a run over an empty
    reader leaves. *)
Definition ready : Parser := snd (run plain [] []).

(** The segment of [one_tree]. *)
Definition tree_segment : Segment :=
  segment "s1" [] [token "t1" "a" true (head "" "root");
                   token "t2" "b" true (head "t1" "obj")].

(** The parser after the loop has processed [tree_segment]. *)
Definition after_tree : Parser :=
  snd (process_segment [] [] "segment" "token" 0 tree_segment 1 ready).

(** The parser after a run over [hello_world]. *)
Definition after_hello : Parser := snd (run plain [] hello_world).

(** The parser after a run over [three_entities]. *)
Definition after_entities : Parser := snd (run with_ne ne_entities three_entities).

(** The token [Hello], followed by a space. *)
Definition hello : Token := token "1" "Hello" true [].

(** The parser after the loop has processed [hello] as a token of
    [tree_segment]. *)
Definition after_token : Parser :=
  snd (process_token [] "token" 0 tree_segment None hello ready).

(** The parser after the row of [tree_segment] has been written, its only
    token so far being [hello]. *)
Definition after_segment : Parser :=
  snd (write_segment [] "segment" tree_segment 1 None after_token).

(** The parser after a token has opened the entity [E1] of [ne]. *)
Definition after_open : Parser :=
  snd (aligned_entity (Text "ne" "E1") ne_entities (Parser_new with_ne [])).

(** The parser after a token has referred to the entity ["dummy"], which the
    reference file of [ne] does not list. *)
Definition after_dummy : Parser :=
  snd (aligned_entity (Text "ne" "dummy") ne_entities (Parser_new with_ne [])).


(** The attributes the schema [with_ne] declares for [ne]. *)
Definition ne_attributes : Dict.t AttrCfg :=
  [("tags", {| a_type := Some "labels"; a_isGlobal := false; a_values := None |})].

(** The entity [after_open] has open. *)
Definition open_entity : Entity :=
  {| e_id := Some "E1"; e_cols := Some [VStr "a"]; e_range_low := Some 1;
     e_frame_range_start := None |}.

(** The table of [ne] after the run over [three_entities]. *)
Definition ne_table : Table :=
  match Dict.get "ne" (tables after_entities) with
  | Some t => t
  | None => Table_new "ne" None
  end.

End Corpus.

(* ================================================================== *)
(** ** [generate_upload_files]: the widths of the processed lines *)

(** [Sentence] belongs to [lcpcli.utils]; what [generate_upload_files] does
    with the sentences it has processed depends only on their [proc_lines],
    so a sentence is given as that list of lines, each a list of fields. *)
Definition ProcSentence : Type := list (list string).

(** [ncols = max([ncols, *[len(l) for l in sent.proc_lines]])], sentence
    after sentence, from 0. *)
Definition ncols_of (proc_sentences : list ProcSentence) : Z :=
  fold_left (fun ncols sent =>
               fold_left Z.max (map (fun l => Z.of_nat (List.length l)) sent) ncols)
            proc_sentences 0.

(** [for _ in range(ncols - len(l)): l.append("")]. *)
Definition pad_line (ncols : Z) (l : list string) : list string :=
  l ++ repeat "" (Z.to_nat (ncols - Z.of_nat (List.length l))).

(** The two loops of [generate_upload_files] over [proc_sentences]: the
    sentences with every line padded to [ncols] fields. *)
Definition pad_sentences (proc_sentences : list ProcSentence) : list ProcSentence :=
  map (map (pad_line (ncols_of proc_sentences))) proc_sentences.

(** The two fields [generate_upload_files] hands to [compute_doc]:
    [proc_sentences[0].proc_lines[0][6]] and
    [proc_sentences[-1].proc_lines[-1][6]], [None] when there is no
    sentence. *)
Definition doc_bounds (proc_sentences : list ProcSentence)
  : Res (option (string * string)) :=
  match pad_sentences proc_sentences with
  | [] => Ok None
  | first :: _ as padded =>
      match index first 0 with
      | None => Raise IndexError
      | Some first_line =>
          match index first_line 6 with
          | None => Raise IndexError
          | Some a =>
              match index padded (-1) with
              | None => Raise IndexError
              | Some last_sentence =>
                  match index last_sentence (-1) with
                  | None => Raise IndexError
                  | Some last_line =>
                      match index last_line 6 with
                      | None => Raise IndexError
                      | Some b => Ok (Some (a, b))
                      end
                  end
              end
          end
      end
  end.

Unset Implicit Arguments.

(* ================================================================== *)
(** ** Observations and hypotheses used by the theorems *)

(** Some buffered token has an empty head id: the segment has a root. *)
Definition has_root (tokens : Dict.t DepEntry) : bool :=
  existsb (fun kv => String.eqb (head_id (snd kv)) "") tokens.

(** A computation leaves an observation of the state as it found it,
    whatever its outcome. *)
Definition preserves {S A X} (f : S -> X) (m : M S A) : Prop :=
  forall s, f (snd (m s)) = f s.

(** A computation keeps a property of the state, whatever its outcome. *)
Definition maintains {S A} (P : S -> Prop) (m : M S A) : Prop :=
  forall s, P s -> P (snd (m s)).

(** The table bound to [key], if any, has no open entity. *)
Definition bare (key : string) (p : Parser) : Prop :=
  forall t, Dict.get key (tables p) = Some t -> current_entity t = Entity_empty.

(** Some token of the segment has a [Dependency] attribute. *)
Definition carries_dependency (segment : Segment) : bool :=
  existsb (fun t => existsb (fun kv => is_Dependency (snd kv)) (tok_attributes t))
          (seg_tokens segment).

(** The third claim as the specification words it: a processed segment whose
    tokens carry [Dependency] attributes leaves no row in ["fts_vector"]. *)
Definition fts_only_without_dependencies : Prop :=
  forall aligned_entities aligned_entities_segment seg_name tok_name offset
         segment start p p',
    process_segment aligned_entities aligned_entities_segment seg_name tok_name offset
                    segment start p = (Ok tt, p') ->
    carries_dependency segment = true ->
    forall vector, ~ In [seg_id segment; vector] (rows_of "fts_vector" p').






(** What the rewrite of [close_upload_files] makes of one bitstring: zeros in
    front until it has [nlabels] characters. *)
Definition pad_cell (nlabels : Z) (bits : string) : string :=
  if len bits <? nlabels then fmt [zeros (nlabels - len bits); bits] else bits.

(** The place of the cell that Python's index [n] names in a list of
    [length] cells. *)
Definition position (length : nat) (n : Z) : nat :=
  if 0 <=? n then Z.to_nat n else Z.to_nat (Z.of_nat length + n).

(** The index [n] names the cell at place [i]. *)
Definition located (length : nat) (ns : list Z) (i : nat) : bool :=
  existsb (fun n => Nat.eqb (position length n) i) ns.

(** What a token adds to the character cursor: the length of its form, and
    one more when a space follows it. *)
Definition token_advance (token : Token) : Z :=
  match Dict.get "form" (tok_attributes token) with
  | Some form => value_len form + (if spaceAfter token then 1 else 0)
  | None => 0
  end.

Definition tokens_advance (tokens : list Token) : Z :=
  fold_right (fun t acc => token_advance t + acc) 0 tokens.

(** What the tokens of all the segments of the reader add to the cursor. *)
Definition reader_advance (reader : list Item) : Z :=
  fold_right (fun item acc =>
                match fst item with
                | Some segment => tokens_advance (seg_tokens segment) + acc
                | None => acc
                end) 0 reader.





(** The tenth claim as the specification words it: once a key that the
    reference file does not list has opened an entity, the next close of the
    entity type raises [KeyError("cols")]. *)
Definition unknown_key_breaks_next_close : Prop :=
  forall name value aligned_entities spec p p',
    Dict.get (lower name) aligned_entities = Some spec ->
    strip value <> "" ->
    strip (strip value) <> "_" ->
    (forall line, In line (readlines (fn spec)) ->
                  strip (hd "" (split tab line)) <> strip value) ->
    (forall t, Dict.get (lower name) (tables p) = Some t ->
               e_id (current_entity t) <> Some (strip value)) ->
    aligned_entity (Text name value) aligned_entities p = (Ok tt, p') ->
    fst (close_aligned_entity name aligned_entities p') = Raise (KeyError "cols").

(* ================================================================== *)
(** ** Reasoning about computations *)

Lemma bind_ok {S A B} (m : M S A) (k : A -> M S B) s b s' :
  bind m k s = (Ok b, s') ->
  exists a s1, m s = (Ok a, s1) /\ k a s1 = (Ok b, s').
Proof.
  unfold bind. destruct (m s) as [[a|e] s1]; intro H.
  - exists a, s1. split; [reflexivity | exact H].
  - discriminate H.
Qed.

Lemma bind_eq {S A B} (m : M S A) (k : A -> M S B) s a s1 :
  m s = (Ok a, s1) -> bind m k s = k a s1.
Proof. intro H. unfold bind. rewrite H. reflexivity. Qed.

Lemma bind_raise {S A B} (m : M S A) (k : A -> M S B) s e s1 :
  m s = (Raise e, s1) -> bind m k s = (Raise e, s1).
Proof. intro H. unfold bind. rewrite H. reflexivity. Qed.

Lemma preserves_ret {S A X} (f : S -> X) (a : A) : preserves f (ret a).
Proof. intro s. reflexivity. Qed.

Lemma preserves_raise {S A X} (f : S -> X) e : preserves f (@raise S A e).
Proof. intro s. reflexivity. Qed.

Lemma preserves_gets {S A X} (f : S -> X) (g : S -> A) : preserves f (gets g).
Proof. intro s. reflexivity. Qed.

Lemma preserves_modify {S X} (f : S -> X) (g : S -> S) :
  (forall s, f (g s) = f s) -> preserves f (modify g).
Proof. intros H s. apply H. Qed.

Lemma preserves_bind {S A B X} (f : S -> X) (m : M S A) (k : A -> M S B) :
  preserves f m -> (forall a, preserves f (k a)) -> preserves f (bind m k).
Proof.
  intros Hm Hk s. unfold bind. specialize (Hm s).
  destruct (m s) as [[a|e] s1]; simpl in *.
  - rewrite Hk. exact Hm.
  - exact Hm.
Qed.

Lemma preserves_for_each {S A X} (f : S -> X) (l : list A) (body : A -> M S unit) :
  (forall x, In x l -> preserves f (body x)) -> preserves f (for_each l body).
Proof.
  induction l as [|x r IH]; intro H; simpl.
  - apply preserves_ret.
  - apply preserves_bind.
    + apply H. left. reflexivity.
    + intros _. apply IH. intros y Hy. apply H. right. exact Hy.
Qed.

Lemma preserves_fold_each {S A B X} (f : S -> X) (l : list A) (body : B -> A -> M S B) :
  (forall acc x, In x l -> preserves f (body acc x)) ->
  forall acc, preserves f (fold_each l acc body).
Proof.
  induction l as [|x r IH]; intros H acc; simpl.
  - apply preserves_ret.
  - apply preserves_bind.
    + apply H. left. reflexivity.
    + intro acc'. apply IH. intros a y Hy. apply H. right. exact Hy.
Qed.

Lemma preserves_getitem {S V X} (f : S -> X) k (d : Dict.t V) :
  preserves f (@getitem S V k d).
Proof. unfold getitem. destruct (Dict.get k d); [apply preserves_ret | apply preserves_raise]. Qed.

(** [d[k]] followed by a continuation that may rely on the key being there. *)
Lemma preserves_getitem_bind {S V B X} (f : S -> X) k (d : Dict.t V) (cont : V -> M S B) :
  (forall v, Dict.get k d = Some v -> preserves f (cont v)) ->
  preserves f (bind (getitem k d) cont).
Proof.
  intros H s. unfold bind, getitem.
  destruct (Dict.get k d) as [v|] eqn:E; simpl.
  - apply (H v eq_refl).
  - reflexivity.
Qed.

Lemma preserves_entry {S V X} (f : S -> X) k (o : option V) :
  preserves f (@entry S V k o).
Proof. destruct o; [apply preserves_ret | apply preserves_raise]. Qed.

Lemma preserves_pop_or_raise {S V X} (f : S -> X) k (d : Dict.t V) :
  preserves f (@pop_or_raise S V k d).
Proof.
  unfold pop_or_raise. destruct (Dict.mem k d); [apply preserves_ret | apply preserves_raise].
Qed.

(** The routine steps of a proof that a computation preserves an
    observation. *)
Ltac preserve_step :=
  match goal with
  | |- preserves _ (ret _) => apply preserves_ret
  | |- preserves _ (raise _) => apply preserves_raise
  | |- preserves _ (gets _) => apply preserves_gets
  | |- preserves _ (getitem _ _) => apply preserves_getitem
  | |- preserves _ (entry _ _) => apply preserves_entry
  | |- preserves _ (pop_or_raise _ _) => apply preserves_pop_or_raise
  | |- preserves _ (modify _) => apply preserves_modify; intro; reflexivity
  | |- preserves _ (bind (getitem _ _) _) => apply preserves_getitem_bind; intros
  | |- preserves _ (bind _ _) => apply preserves_bind; [| intros]
  | |- preserves _ (for_each _ _) => apply preserves_for_each; intros
  | |- preserves _ (fold_each _ _ _) => apply preserves_fold_each; intros
  | |- preserves _ (if ?b then _ else _) => destruct b
  | |- preserves _ (match ?x with _ => _ end) => destruct x
  | |- preserves _ (let _ := _ in _) => cbv zeta
  end.

(* ------------------------------------------------------------------ *)
(** *** Dictionaries *)

Lemma get_set_same {V} k (v : V) d : Dict.get k (Dict.set k v d) = Some v.
Proof.
  induction d as [|[k' v'] r IH]; simpl.
  - rewrite String.eqb_refl. reflexivity.
  - destruct (String.eqb k k') eqn:E; simpl; rewrite E; [reflexivity | exact IH].
Qed.

Lemma get_set_other {V} k k' (v : V) d :
  k <> k' -> Dict.get k (Dict.set k' v d) = Dict.get k d.
Proof.
  intro H. induction d as [|[k2 v2] r IH]; simpl.
  - destruct (String.eqb k k') eqn:E; [apply String.eqb_eq in E; contradiction | reflexivity].
  - destruct (String.eqb k' k2) eqn:E; simpl.
    + apply String.eqb_eq in E. subst k2.
      destruct (String.eqb k k') eqn:E2; [apply String.eqb_eq in E2; contradiction | reflexivity].
    + destruct (String.eqb k k2); [reflexivity | exact IH].
Qed.

Lemma get_pop_other {V} k k' (d : Dict.t V) :
  k <> k' -> Dict.get k (Dict.pop k' d) = Dict.get k d.
Proof.
  intro H. induction d as [|[k2 v2] r IH]; simpl; [reflexivity|].
  destruct (String.eqb k' k2) eqn:E; simpl.
  - apply String.eqb_eq in E. subst k2.
    destruct (String.eqb k k') eqn:E2; [apply String.eqb_eq in E2; contradiction | exact IH].
  - destruct (String.eqb k k2); [reflexivity | exact IH].
Qed.

Lemma set_get_same {V} k (v : V) d : Dict.get k d = Some v -> Dict.set k v d = d.
Proof.
  induction d as [|[k' v'] r IH]; simpl; [discriminate|].
  destruct (String.eqb k k') eqn:E; intro H.
  - injection H as ->. reflexivity.
  - rewrite (IH H). reflexivity.
Qed.

(* ------------------------------------------------------------------ *)
(** *** Writing to a table *)

(** A write that returns has appended its row, to a file that is open. *)
Lemma write_ok row t u t' :
  write row t = (Ok u, t') ->
  closed t = false /\ t' = set_rows (rows t ++ [row]) t.
Proof.
  unfold write. destruct (closed t); intro H; [discriminate H|].
  injection H as _ <-. split; reflexivity.
Qed.

Lemma on_table_ok {A} key (m : M Table A) p a p' :
  on_table key m p = (Ok a, p') ->
  exists t t', Dict.get key (tables p) = Some t /\ m t = (Ok a, t')
               /\ p' = set_tables (Dict.set key t' (tables p)) p.
Proof.
  unfold on_table. destruct (Dict.get key (tables p)) as [t|] eqn:Ht; [|discriminate].
  destruct (m t) as [r t'] eqn:E. intro H. injection H as -> <-.
  exists t, t'. split; [reflexivity | split; [exact E | reflexivity]].
Qed.

(* ------------------------------------------------------------------ *)
(** *** The dependency linearizer *)

Lemma write_preserves_deps row : preserves deps (write row).
Proof. intro t. unfold write. destruct (closed t); reflexivity. Qed.

Lemma link_tokens_preserves_deps tokens : preserves deps (link_tokens tokens).
Proof. unfold link_tokens. repeat preserve_step. Qed.

Lemma write_segment_deps_preserves_deps tokens :
  preserves deps (write_segment_deps tokens).
Proof.
  unfold write_segment_deps, compute_anchors, all_ids.
  repeat (preserve_step || apply link_tokens_preserves_deps || apply write_preserves_deps).
Qed.

(** The linking loop over tokens none of which is a root: it only touches
    the node store and finds no head. *)
Lemma link_loop_rootless tokens l : forall found t,
  has_root l = false ->
  exists h,
    fold_each l found (fun nested_set_of_previous_head item =>
      let attrs := snd item in
      let hid := head_id attrs in
      let found :=
        if String.eqb hid "" then Some (nested_set attrs)
        else nested_set_of_previous_head in
      match Dict.get hid tokens with
      | None => ret found
      | Some head =>
          modify (fun t => set_ns_heap (ns_add (nested_set head) (nested_set attrs) (ns_heap t)) t) ;;;
          ret found
      end) t = (Ok found, set_ns_heap h t).
Proof.
  induction l as [|[k e] r IH]; intros found t H; simpl in *.
  - exists (ns_heap t). destruct t; reflexivity.
  - apply orb_false_iff in H. destruct H as [He Hr].
    unfold bind at 1. rewrite He.
    destruct (Dict.get (head_id e) tokens) as [hd|]; simpl.
    + destruct (IH found (set_ns_heap (ns_add (nested_set hd) (nested_set e) (ns_heap t)) t) Hr)
        as [h Hh].
      exists h. unfold bind at 1, modify at 1. simpl. unfold ret at 1. exact Hh.
    + unfold ret at 1. apply IH. exact Hr.
Qed.

Lemma link_tokens_rootless tokens t :
  has_root tokens = false ->
  exists h, link_tokens tokens t = (Ok None, set_ns_heap h t).
Proof. intro H. unfold link_tokens. apply link_loop_rootless. exact H. Qed.

Lemma write_segment_deps_rootless tokens t :
  has_root tokens = false ->
  exists h, write_segment_deps tokens t = (Ok false, set_ns_heap h t).
Proof.
  intro H. destruct (link_tokens_rootless tokens t H) as [h Hh].
  exists h. unfold write_segment_deps.
  rewrite (bind_eq _ _ _ _ _ Hh). reflexivity.
Qed.

Lemma fold_each_cons {S A B} (x : A) (r : list A) (acc : B) (body : B -> A -> M S B) :
  fold_each (x :: r) acc body = bind (body acc x) (fun acc' => fold_each r acc' body).
Proof. reflexivity. Qed.

Lemma for_each_cons {S A} (x : A) (r : list A) (body : A -> M S unit) :
  for_each (x :: r) body = bind (body x) (fun _ => for_each r body).
Proof. reflexivity. Qed.

(** One visit: [table.deps] is not touched, and a segment without a root is
    not put on the list of segments to evict. *)
Lemma visit_segment_rootless working_on seg acc k v t :
  (k = seg -> has_root v = false) ->
  ~ In seg acc ->
  deps (snd (visit_segment working_on acc (k, v) t)) = deps t
  /\ forall acc', fst (visit_segment working_on acc (k, v) t) = Ok acc' -> ~ In seg acc'.
Proof.
  intros Hk Hacc. unfold visit_segment. cbn [fst snd].
  destruct (String.eqb k working_on).
  - split; [reflexivity | intros acc' E; injection E as <-; exact Hacc].
  - pose proof (write_segment_deps_preserves_deps v t) as Hd.
    unfold bind.
    destruct (write_segment_deps v t) as [[b|e] t1] eqn:E; simpl in Hd |- *.
    + split; [exact Hd|]. intros acc' E'. injection E' as <-.
      destruct b; [|exact Hacc].
      intro Hin. apply in_app_or in Hin. destruct Hin as [Hin|[Hin|[]]].
      * exact (Hacc Hin).
      * destruct (write_segment_deps_rootless v t (Hk Hin)) as [h Hh].
        rewrite Hh in E. discriminate E.
    + split; [exact Hd | intros acc' E'; discriminate E'].
Qed.

Lemma visit_segments_rootless working_on seg l : forall acc t,
  (forall v, In (seg, v) l -> has_root v = false) ->
  ~ In seg acc ->
  deps (snd (fold_each l acc (visit_segment working_on) t)) = deps t
  /\ forall acc', fst (fold_each l acc (visit_segment working_on) t) = Ok acc' -> ~ In seg acc'.
Proof.
  induction l as [|[k v] r IH]; intros acc t Hl Hacc.
  - split; [reflexivity | intros acc' E; injection E as <-; exact Hacc].
  - assert (Hr : forall v0, In (seg, v0) r -> has_root v0 = false)
      by (intros v0 Hv; apply Hl; right; exact Hv).
    assert (Hk : k = seg -> has_root v = false)
      by (intros ->; apply Hl; left; reflexivity).
    destruct (visit_segment_rootless working_on seg acc k v t Hk Hacc) as [V1 V2].
    rewrite fold_each_cons. unfold bind.
    destruct (visit_segment working_on acc (k, v) t) as [[acc1|e] t1]; simpl in V1, V2.
    + destruct (IH acc1 t1 Hr (V2 acc1 eq_refl)) as [I1 I2].
      split; [rewrite I1; exact V1 | exact I2].
    + split; [exact V1 | intros acc' E'; discriminate E'].
Qed.

Lemma evict_other seg l : forall t,
  ~ In seg l ->
  Dict.get seg (deps (snd (for_each l evict_segment t))) = Dict.get seg (deps t).
Proof.
  induction l as [|s r IH]; intros t H; [reflexivity|].
  assert (Hs : seg <> s) by (intro E; apply H; left; symmetry; exact E).
  assert (Hr : ~ In seg r) by (intro E; apply H; right; exact E).
  rewrite for_each_cons. unfold bind.
  destruct (evict_segment s t) as [[u|e] t1] eqn:E.
  - rewrite IH by exact Hr.
    unfold evict_segment, bind, gets, pop_or_raise in E.
    destruct (Dict.mem s (deps t)); simpl in E; [|discriminate E].
    injection E as _ <-. simpl. apply get_pop_other. exact Hs.
  - unfold evict_segment, bind, gets, pop_or_raise in E.
    destruct (Dict.mem s (deps t)); simpl in E; [discriminate E|].
    injection E as _ <-. reflexivity.
Qed.

Lemma write_token_deps_keeps_rootless working_on seg t :
  (forall v, In (seg, v) (deps t) -> has_root v = false) ->
  Dict.get seg (deps (snd (write_token_deps working_on t))) = Dict.get seg (deps t).
Proof.
  intro H. unfold write_token_deps.
  destruct (visit_segments_rootless working_on seg (deps t) [] t H (fun x => x)) as [V1 V2].
  unfold bind at 1, gets at 1. unfold bind.
  destruct (fold_each (deps t) [] (visit_segment working_on) t) as [[acc|e] t1];
    simpl in V1, V2 |- *.
  - rewrite (evict_other seg acc t1 (V2 acc eq_refl)). rewrite V1. reflexivity.
  - rewrite V1. reflexivity.
Qed.

Lemma get_in {V} k (v : V) d : Dict.get k d = Some v -> In (k, v) d.
Proof.
  induction d as [|[k' v'] r IH]; simpl; [discriminate|].
  destruct (String.eqb k k') eqn:E; intro H.
  - apply String.eqb_eq in E. injection H as ->. subst k'. left. reflexivity.
  - right. apply IH. exact H.
Qed.

(** When no buffered segment has a root, the whole visit changes nothing but
    the links between the nodes. *)
Lemma visit_all_rootless working_on l : forall acc t,
  (forall k v, In (k, v) l -> has_root v = false) ->
  exists h, fold_each l acc (visit_segment working_on) t = (Ok acc, set_ns_heap h t).
Proof.
  induction l as [|[k v] r IH]; intros acc t H.
  - exists (ns_heap t). destruct t; reflexivity.
  - rewrite fold_each_cons.
    assert (Hr : forall k0 v0, In (k0, v0) r -> has_root v0 = false)
      by (intros k0 v0 Hv; apply (H k0); right; exact Hv).
    unfold visit_segment at 1. cbn [fst snd].
    destruct (String.eqb k working_on).
    + unfold bind at 1, ret at 1. apply IH. exact Hr.
    + destruct (write_segment_deps_rootless v t (H k v (or_introl eq_refl))) as [h Hh].
      unfold bind at 1. rewrite (bind_eq _ _ _ _ _ Hh). unfold ret at 1.
      destruct (IH acc (set_ns_heap h t) Hr) as [h' Hh'].
      exists h'. exact Hh'.
Qed.

(** C7. When [write_token_deps] comes to a buffered segment none of whose
    tokens has an empty head id, the failed assertion is swallowed: the
    iteration over that segment ends normally, it writes no row and moves no
    anchor (only the links between the nodes change), the segment and its
    buffered entries are still in [table.deps] when the call is over, and a
    call that meets only such segments returns normally without a row. *)
Theorem write_token_deps_skips_rootless
    (working_on seg : string) (tokens : Dict.t DepEntry) (t : Table) :
  Dict.get seg (deps t) = Some tokens ->
  (forall v, In (seg, v) (deps t) -> has_root v = false) ->
  (exists h, write_segment_deps tokens t = (Ok false, set_ns_heap h t))
  /\ Dict.get seg (deps (snd (write_token_deps working_on t))) = Some tokens
  /\ ((forall k v, In (k, v) (deps t) -> has_root v = false) ->
      exists h, write_token_deps working_on t = (Ok tt, set_ns_heap h t)).
Proof.
  intros Hget Hroot. split; [|split].
  - apply write_segment_deps_rootless. apply Hroot. apply get_in. exact Hget.
  - rewrite write_token_deps_keeps_rootless by exact Hroot. exact Hget.
  - intro Hall. unfold write_token_deps.
    destruct (visit_all_rootless working_on (deps t) [] t Hall) as [h Hh].
    exists h. unfold bind at 1, gets at 1.
    rewrite (bind_eq _ _ _ _ _ Hh). reflexivity.
Qed.

Lemma write_token_deps_skips_rootless_witness :
  (exists h, write_segment_deps [("t1", {| head_id := "t2"; nested_set := 0%nat |});
                                 ("t2", {| head_id := "t9"; nested_set := 1%nat |})]
               Corpus.rootless = (Ok false, set_ns_heap h Corpus.rootless))
  /\ Dict.get "s1" (deps (snd (write_token_deps "" Corpus.rootless)))
     = Some [("t1", {| head_id := "t2"; nested_set := 0%nat |});
             ("t2", {| head_id := "t9"; nested_set := 1%nat |})]
  /\ ((forall k v, In (k, v) (deps Corpus.rootless) -> has_root v = false) ->
      exists h, write_token_deps "" Corpus.rootless = (Ok tt, set_ns_heap h Corpus.rootless)).
Proof.
  apply (write_token_deps_skips_rootless "" "s1").
  - reflexivity.
  - intros v [E|[]]. injection E as <-. reflexivity.
Defined.

Lemma on_table_get {A} key (m : M Table A) p t :
  Dict.get key (tables p) = Some t ->
  on_table key m p = (fst (m t), set_tables (Dict.set key (snd (m t)) (tables p)) p).
Proof. intro H. unfold on_table. rewrite H. destruct (m t). reflexivity. Qed.

Lemma aligned_entity_bare_raises p name value aligned_entities spec t fk :
  Dict.get (lower name) aligned_entities = Some spec ->
  Dict.get (lower name) (tables p) = Some t ->
  e_id (current_entity t) = Some fk ->
  e_cols (current_entity t) = None ->
  strip value <> fk ->
  fst (aligned_entity (Text name value) aligned_entities p) = Raise (KeyError "cols").
Proof.
  intros Hspec Ht Hid Hcols Hfk.
  unfold aligned_entity. cbn [attr_name].
  unfold bind at 1, gets at 1.
  unfold bind at 1, getitem at 1. rewrite Hspec. unfold ret at 1.
  unfold bind at 1, gets at 1.
  unfold bind at 1. unfold Dict.mem at 1. rewrite Ht. unfold ret at 1.
  unfold bind at 1. rewrite (on_table_get _ _ _ _ Ht). cbn [fst snd gets].
  rewrite Hid.
  destruct (String.eqb (strip value) fk) eqn:E; [apply String.eqb_eq in E; contradiction|].
  unfold entity_truthy. rewrite Hid. cbn [is_some orb].
  unfold bind at 1, write_entity, bind at 1. rewrite Hcols. reflexivity.
Qed.

(** A scan of the reference file that finds no line for the key leaves the
    entity and the parser as they are. *)
Lemma find_entity_absent aname_low layer_attributes fk lines ce p :
  (forall line, In line lines -> strip (hd "" (split tab line)) <> fk) ->
  find_entity aname_low layer_attributes fk lines ce p = (Ok ce, p).
Proof.
  induction lines as [|l r IH]; intro H; simpl; [reflexivity|].
  destruct (String.eqb (strip (hd "" (split tab l))) fk) eqn:E.
  - apply String.eqb_eq in E. exfalso. apply (H l); [left; reflexivity | exact E].
  - apply IH. intros line Hl. apply H. right. exact Hl.
Qed.


Lemma maintains_ret {S A} (P : S -> Prop) (a : A) : maintains P (ret a).
Proof. intros s H. exact H. Qed.

Lemma maintains_raise {S A} (P : S -> Prop) e : maintains P (@raise S A e).
Proof. intros s H. exact H. Qed.

Lemma maintains_bind {S A B} (P : S -> Prop) (m : M S A) (k : A -> M S B) :
  maintains P m -> (forall a, maintains P (k a)) -> maintains P (bind m k).
Proof.
  intros Hm Hk s H. unfold bind. specialize (Hm s H).
  destruct (m s) as [[a|e] s1]; simpl in *.
  - apply Hk. exact Hm.
  - exact Hm.
Qed.

Lemma maintains_fold_each {S A B} (P : S -> Prop) (l : list A) (body : B -> A -> M S B) :
  (forall acc x, maintains P (body acc x)) ->
  forall acc, maintains P (fold_each l acc body).
Proof.
  induction l as [|x r IH]; intros H acc; simpl.
  - apply maintains_ret.
  - apply maintains_bind; [apply H | intro acc'; apply IH; exact H].
Qed.

Lemma on_table_bare {A} k0 k (m : M Table A) :
  preserves current_entity m -> maintains (bare k0) (on_table k m).
Proof.
  intros Hm p H. unfold on_table.
  destruct (Dict.get k (tables p)) as [t|] eqn:E; [|exact H].
  specialize (Hm t). destruct (m t) as [r t']. simpl in Hm |- *.
  intros t0 Ht0. simpl in Ht0.
  destruct (String.eqb k0 k) eqn:Ek.
  - apply String.eqb_eq in Ek. subst k0. rewrite get_set_same in Ht0.
    injection Ht0 as <-. rewrite Hm. apply H. exact E.
  - apply String.eqb_neq in Ek. rewrite get_set_other in Ht0 by exact Ek.
    apply H. exact Ht0.
Qed.

Lemma bind_table_bare k0 k (t : Table) :
  current_entity t = Entity_empty -> maintains (bare k0) (bind_table k t).
Proof.
  intros Ht p H t0 Ht0. simpl in Ht0.
  destruct (String.eqb k0 k) eqn:Ek.
  - apply String.eqb_eq in Ek. subst k0. rewrite get_set_same in Ht0.
    injection Ht0 as <-. exact Ht.
  - apply String.eqb_neq in Ek. rewrite get_set_other in Ht0 by exact Ek.
    apply H. exact Ht0.
Qed.

Lemma create_entity_table_bare k0 aname_low layer_name layer_attributes spec has_frame :
  maintains (bare k0)
    (create_entity_table aname_low layer_name layer_attributes spec has_frame).
Proof.
  unfold create_entity_table.
  apply maintains_bind; [intros s H; exact H | intro cfg].
  apply maintains_bind; [apply bind_table_bare; reflexivity | intros _].
  apply maintains_bind; [apply on_table_bare; intro t; reflexivity | intros _].
  apply maintains_bind.
  - apply maintains_fold_each. intros acc cn.
    destruct (Dict.get cn layer_attributes) as [props|]; [|apply maintains_raise].
    destruct (opt_eqb (a_type props) "text"); [|apply maintains_ret].
    apply maintains_bind; [apply bind_table_bare; reflexivity | intros _; apply maintains_ret].
  - intro names. apply on_table_bare. intro t. unfold write.
    destruct (closed t); reflexivity.
Qed.

(** C10, amended.  A token refers to an aligned entity by a key that is not
    empty, is not the placeholder ["_"] and is not the first field of any
    line of the reference file, while another entity (or none) is open.  If
    the call returns, the entity it opened has its ["id"] and neither
    ["cols"] nor ["range_low"] (and a ["frame_range_start"] exactly when the
    contained layer is time-anchored); the next call for that entity type
    with another key raises [KeyError("cols")], which nothing catches, and so
    does the next [close_aligned_entity], whose key is ["dummy"], unless the
    key that opened the entity is ["dummy"] itself. *)
Theorem unknown_key_opens_bare_entity
    (name value : string) (aligned_entities : Dict.t AlignedSpec) (spec : AlignedSpec)
    (p p' : Parser) :
  Dict.get (lower name) aligned_entities = Some spec ->
  strip value <> "" ->
  strip (strip value) <> "_" ->
  (forall line, In line (readlines (fn spec)) ->
                strip (hd "" (split tab line)) <> strip value) ->
  (forall t, Dict.get (lower name) (tables p) = Some t ->
             e_id (current_entity t) <> Some (strip value)) ->
  aligned_entity (Text name value) aligned_entities p = (Ok tt, p') ->
  (exists t, Dict.get (lower name) (tables p') = Some t
             /\ e_id (current_entity t) = Some (strip value)
             /\ e_cols (current_entity t) = None
             /\ e_range_low (current_entity t) = None
             /\ (e_frame_range_start (current_entity t) = None
                 <-> is_time_anchored (config p) (contains spec) = false))
  /\ (forall name2 value2, lower name2 = lower name -> strip value2 <> strip value ->
        fst (aligned_entity (Text name2 value2) aligned_entities p')
        = Raise (KeyError "cols"))
  /\ (forall name2, lower name2 = lower name -> strip value <> "dummy" ->
        fst (close_aligned_entity name2 aligned_entities p') = Raise (KeyError "cols")).
Proof.
  intros Hspec Hne Hph Hfile Hcur Hrun.
  assert (Hopen : exists t, Dict.get (lower name) (tables p') = Some t
             /\ e_id (current_entity t) = Some (strip value)
             /\ e_cols (current_entity t) = None
             /\ e_range_low (current_entity t) = None
             /\ (e_frame_range_start (current_entity t) = None
                 <-> is_time_anchored (config p) (contains spec) = false)).
  { unfold aligned_entity in Hrun. cbn [attr_name] in Hrun.
    apply bind_ok in Hrun. destruct Hrun as (cfg & p0 & E0 & Hrun).
    injection E0 as <- <-.
    unfold bind at 1, getitem at 1 in Hrun. rewrite Hspec in Hrun. unfold ret at 1 in Hrun.
    apply bind_ok in Hrun. destruct Hrun as (tabs & p0 & E0 & Hrun).
    injection E0 as <- <-.
    apply bind_ok in Hrun. destruct Hrun as ([] & p1 & E1 & Hrun).
    apply bind_ok in Hrun. destruct Hrun as (ce & p2 & E2 & Hrun).
    assert (Hce : e_id ce <> Some (strip value)).
    { unfold on_table in E2.
      destruct (Dict.get (lower name) (tables p1)) as [t1|] eqn:Et1; [|discriminate E2].
      injection E2 as <- _.
      unfold Dict.mem in E1.
      destruct (Dict.get (lower name) (tables p)) as [t0|] eqn:Et0.
      - injection E1 as <-. rewrite Et0 in Et1. injection Et1 as <-.
        apply Hcur. reflexivity.
      - assert (Hb : bare (lower name) p1).
        { replace p1 with (snd (create_entity_table (lower name)
                    (layer_name_of (config p) (lower name))
                    (layer_attributes_of (config p) (layer_name_of (config p) (lower name)))
                    spec (is_time_anchored (config p) (contains spec)) p))
            by (rewrite E1; reflexivity).
          apply create_entity_table_bare. intros t Ht. rewrite Et0 in Ht. discriminate Ht. }
        rewrite (Hb t1 Et1). discriminate. }
    assert (Hneq : String.eqb (strip value) (match e_id ce with Some i => i | None => "" end)
                   = false).
    { apply String.eqb_neq. destruct (e_id ce) as [i|].
      - intro E. apply Hce. rewrite E. reflexivity.
      - exact Hne. }
    rewrite Hneq in Hrun.
    apply bind_ok in Hrun. destruct Hrun as ([] & p3 & E3 & Hrun).
    apply bind_ok in Hrun. destruct Hrun as (ce' & p4 & E4 & Hrun).
    assert (Hce' : e_id ce' = Some (strip value) /\ e_cols ce' = None /\ e_range_low ce' = None
                   /\ (e_frame_range_start ce' = None
                       <-> is_time_anchored (config p) (contains spec) = false)).
    { apply String.eqb_neq in Hne. apply String.eqb_neq in Hph.
      rewrite Hne, Hph in E4. cbn [orb] in E4.
      unfold bind at 1 in E4. rewrite find_entity_absent in E4 by exact Hfile.
      destruct (is_time_anchored (config p) (contains spec)).
      - injection E4 as <- _. repeat split; discriminate.
      - injection E4 as <- _. repeat split. }
    unfold on_table in Hrun.
    destruct (Dict.get (lower name) (tables p4)) as [t4|]; [|discriminate Hrun].
    injection Hrun as <-. cbn [tables set_tables snd modify].
    exists (set_current_entity ce' t4). split; [apply get_set_same | exact Hce']. }
  split; [exact Hopen|].
  destruct Hopen as (t & Ht & Hid & Hcols & _).
  assert (Hraise : forall name2 value2, lower name2 = lower name ->
            strip value2 <> strip value ->
            fst (aligned_entity (Text name2 value2) aligned_entities p')
            = Raise (KeyError "cols")).
  { intros name2 value2 Hn Hv.
    apply (aligned_entity_bare_raises p' name2 value2 aligned_entities spec t (strip value));
      try rewrite Hn; assumption. }
  split; [exact Hraise|].
  intros name2 Hn Hd. unfold close_aligned_entity.
  specialize (Hraise name2 "dummy" Hn).
  unfold bind.
  destruct (aligned_entity (Text name2 "dummy") aligned_entities p') as [[u|e] s].
  - simpl in Hraise. exfalso.
    assert (Hs : strip "dummy" <> strip value)
      by (intro E; apply Hd; rewrite <- E; reflexivity).
    specialize (Hraise Hs). discriminate Hraise.
  - simpl in Hraise |- *. apply Hraise. intro E. apply Hd. rewrite <- E. reflexivity.
Qed.

Lemma unknown_key_opens_bare_entity_witness :
  (exists t, Dict.get "ne" (tables Corpus.after_unknown) = Some t
             /\ e_id (current_entity t) = Some "E9"
             /\ e_cols (current_entity t) = None
             /\ e_range_low (current_entity t) = None
             /\ (e_frame_range_start (current_entity t) = None
                 <-> is_time_anchored (config (Parser_new Corpus.with_ne [])) "token" = false))
  /\ (forall name2 value2, lower name2 = "ne" -> strip value2 <> "E9" ->
        fst (aligned_entity (Text name2 value2) Corpus.ne_entities Corpus.after_unknown)
        = Raise (KeyError "cols"))
  /\ (forall name2, lower name2 = "ne" -> "E9" <> "dummy" ->
        fst (close_aligned_entity name2 Corpus.ne_entities Corpus.after_unknown)
        = Raise (KeyError "cols")).
Proof.
  apply (unknown_key_opens_bare_entity "ne" "E9" Corpus.ne_entities
           {| fn := Corpus.ne_file; contains := "token" |}
           (Parser_new Corpus.with_ne []) Corpus.after_unknown).
  - reflexivity.
  - vm_compute. discriminate.
  - vm_compute. discriminate.
  - intros line H. vm_compute in H.
    repeat (destruct H as [H|H]; [subst line; vm_compute; discriminate|]).
    contradiction.
  - intros t H. discriminate H.
  - vm_compute. reflexivity.
Defined.

(** C10 as stated fails: the key ["dummy"] is in no line of the reference
    file of [ne], and the close that follows it returns normally:
    [close_aligned_entity] passes the key ["dummy"] itself, [aligned_entity]
    takes it for the entity still open and defers, and the entity is
    reset. *)
Lemma dummy_key_closes_normally : ~ unknown_key_breaks_next_close.
Proof.
  intro H.
  assert (E : aligned_entity (Text "ne" "dummy") Corpus.ne_entities
                (Parser_new Corpus.with_ne []) = (Ok tt, Corpus.after_dummy))
    by (vm_compute; reflexivity).
  assert (C : fst (close_aligned_entity "ne" Corpus.ne_entities Corpus.after_dummy) = Ok tt)
    by (vm_compute; reflexivity).
  rewrite (H "ne" "dummy" Corpus.ne_entities
             {| fn := Corpus.ne_file; contains := "token" |}
             (Parser_new Corpus.with_ne []) Corpus.after_dummy) in C.
  - discriminate C.
  - reflexivity.
  - vm_compute. discriminate.
  - vm_compute. discriminate.
  - intros line Hl. vm_compute in Hl.
    repeat (destruct Hl as [Hl|Hl]; [subst line; vm_compute; discriminate|]).
    contradiction.
  - intros t Ht. discriminate Ht.
  - exact E.
Qed.

(* ------------------------------------------------------------------ *)
(** *** The segment row and the full-text-search vector *)

Lemma fold_each_result {S A B} (Q : B -> Prop) (l : list A) (body : B -> A -> M S B) :
  (forall acc x s acc' s', Q acc -> body acc x s = (Ok acc', s') -> Q acc') ->
  forall acc s acc' s', Q acc -> fold_each l acc body s = (Ok acc', s') -> Q acc'.
Proof.
  intro Hb. induction l as [|x r IH]; intros acc s acc' s' HQ H.
  - injection H as <- _. exact HQ.
  - rewrite fold_each_cons in H. apply bind_ok in H.
    destruct H as (a & s1 & E1 & E2).
    apply (IH a s1 acc' s'); [apply (Hb acc x s a s1 HQ E1) | exact E2].
Qed.

(** The row of a segment starts with the segment's identifier. *)
Lemma write_segment_head aligned_entities_segment seg_name segment start fstart p cols p' :
  write_segment aligned_entities_segment seg_name segment start fstart p = (Ok cols, p') ->
  exists rest, cols = seg_id segment :: rest.
Proof.
  intro H. unfold write_segment in H.
  apply bind_ok in H. destruct H as (segment_table & p1 & _ & H).
  apply bind_ok in H. destruct H as (has_frame & p2 & _ & H).
  apply bind_ok in H. destruct H as (u & p3 & _ & H).
  apply bind_ok in H. destruct H as (cur & p4 & _ & H).
  apply bind_ok in H. destruct H as (cols1 & p5 & E1 & H).
  apply bind_ok in H. destruct H as (cols2 & p6 & E2 & H).
  apply bind_ok in H. destruct H as (u1 & p7 & _ & H).
  apply bind_ok in H. destruct H as (u2 & p8 & _ & H).
  injection H as <- _.
  assert (H1 : exists rest, cols1 = seg_id segment :: rest).
  { destruct has_frame.
    - apply bind_ok in E1. destruct E1 as (e & p9 & _ & E1).
      destruct fstart as [s|]; [|discriminate E1].
      injection E1 as <- _. eexists. reflexivity.
    - injection E1 as <- _. eexists. reflexivity. }
  refine (fold_each_result (fun c => exists rest, c = seg_id segment :: rest)
            _ _ _ _ _ _ _ H1 E2).
  intros acc a s acc' s' [rest ->] Hb.
  destruct (Dict.mem (lower (attr_name a)) aligned_entities_segment).
  - apply bind_ok in Hb. destruct Hb as (u3 & s1 & _ & Hb).
    injection Hb as <- _. eexists. reflexivity.
  - apply bind_ok in Hb. destruct Hb as (names & s1 & _ & Hb).
    destruct (negb (str_in (attr_name a) names)).
    + injection Hb as <- _. eexists. reflexivity.
    + apply bind_ok in Hb. destruct Hb as (u3 & s2 & _ & Hb).
      injection Hb as <- _. eexists. reflexivity.
Qed.

(** The full-text-search block appends the row of the segment to the table
    ["fts_vector"], whatever the attributes of the tokens are. *)
Lemma fts_vector_appends aligned_entities seg_name segment cols p p' :
  fts_vector aligned_entities seg_name segment cols p = (Ok tt, p') ->
  exists vector,
    last (rows_of "fts_vector" p') [] = firstn 1 cols ++ [vector].
Proof.
  intro H. unfold fts_vector in H. cbn [token_have_dependencies negb] in H.
  apply bind_ok in H. destruct H as (tabs & p1 & _ & H).
  apply bind_ok in H. destruct H as (u & p2 & _ & H).
  apply bind_ok in H. destruct H as (vector & p3 & _ & H).
  exists vector.
  apply on_table_ok in H. destruct H as (t & t' & _ & H & ->).
  apply bind_ok in H. destruct H as (c & t1 & _ & H).
  apply bind_ok in H. destruct H as (u1 & t2 & _ & H).
  apply bind_ok in H. destruct H as (u2 & t3 & Hw & H).
  apply write_ok in Hw. destruct Hw as [_ ->].
  injection H as <-. unfold rows_of. cbn [tables set_tables].
  rewrite get_set_same. cbn [rows set_cursor set_rows].
  apply last_last.
Qed.

(** C3, amended.  Every segment the loop processes to its end leaves its row
    [(segment id, vector)] as the last row of ["fts_vector"]: the block runs
    for every segment, whether or not its tokens carry [Dependency]
    attributes, because [token_have_dependencies] is never set. *)
Theorem fts_row_for_every_segment
    (aligned_entities aligned_entities_segment : Dict.t AlignedSpec)
    (seg_name tok_name : string) (offset : Z) (segment : Segment) (start : Z)
    (p p' : Parser) :
  process_segment aligned_entities aligned_entities_segment seg_name tok_name offset
                  segment start p = (Ok tt, p') ->
  exists vector, last (rows_of "fts_vector" p') [] = [seg_id segment; vector].
Proof.
  intro H. unfold process_segment in H.
  apply bind_ok in H. destruct H as (u & p1 & _ & H).
  apply bind_ok in H. destruct H as (fstart & p2 & _ & H).
  apply bind_ok in H. destruct H as (cols & p3 & Hseg & H).
  apply write_segment_head in Hseg. destruct Hseg as [rest ->].
  apply fts_vector_appends in H. exact H.
Qed.

Lemma fts_row_for_every_segment_witness :
  exists vector, last (rows_of "fts_vector" Corpus.after_tree) [] = ["s1"; vector].
Proof.
  apply (fts_row_for_every_segment [] [] "segment" "token" 0 Corpus.tree_segment 1
           Corpus.ready Corpus.after_tree).
  vm_compute. reflexivity.
Defined.

(** C3 as stated fails: the two tokens of [tree_segment] carry [Dependency]
    attributes, and the segment has its row in ["fts_vector"]. *)
Lemma fts_row_despite_dependencies : ~ fts_only_without_dependencies.
Proof.
  intro H.
  assert (E : process_segment [] [] "segment" "token" 0 Corpus.tree_segment 1 Corpus.ready
              = (Ok tt, Corpus.after_tree)) by (vm_compute; reflexivity).
  assert (D : carries_dependency Corpus.tree_segment = true) by (vm_compute; reflexivity).
  apply (H [] [] "segment" "token" 0 Corpus.tree_segment 1 Corpus.ready Corpus.after_tree
           E D "'1a':1 '2':1 '3':1 '1b':2 '2t1':2 '3t1':2").
  vm_compute. right. left. reflexivity.
Qed.

(* ------------------------------------------------------------------ *)
(** *** What the loop leaves alone *)





Lemma mem_key {V} k (d : Dict.t V) : In k (Dict.keys d) -> Dict.mem k d = true.
Proof.
  unfold Dict.mem. induction d as [|[k' v] r IH]; simpl; [intros []|].
  intros [E|H].
  - subst k'. rewrite String.eqb_refl. reflexivity.
  - destruct (String.eqb k k'); [reflexivity | apply IH; exact H].
Qed.


















(* ------------------------------------------------------------------ *)
(** *** The row of a document *)

Lemma starts_app {A} (a b : A) l x :
  (exists rest, l = a :: b :: rest) -> exists rest, l ++ x = a :: b :: rest.
Proof. intros [rest ->]. exists (rest ++ x). reflexivity. Qed.

Lemma doc_attributes_keep_start (a b : string) (attrs : Dict.t Attribute) :
  forall acc : list string * list string,
  (exists rest, snd acc = a :: b :: rest) ->
  exists rest,
    snd (fold_left (fun (acc : list string * list string) (kv : string * Attribute) =>
                      if String.eqb (fst kv) "meta" then acc
                      else (fst acc ++ [lower (fst kv)],
                            snd acc ++ [strip (value_str (snd kv))]))
                   attrs acc) = a :: b :: rest.
Proof.
  induction attrs as [|kv r IH]; intros acc H; simpl; [exact H|].
  apply IH. destruct (String.eqb (fst kv) "meta"); [exact H|].
  simpl. apply starts_app. exact H.
Qed.

Lemma preserves_value_dict {S X} (f : S -> X) a : preserves f (@value_dict S a).
Proof. destruct a; simpl; first [apply preserves_ret | apply preserves_raise]. Qed.

Lemma upload_new_doc_rows doc doc_name p p' t :
  Dict.get "document" (tables p) = Some t ->
  upload_new_doc doc doc_name p = (Ok tt, p') ->
  char_range_cur p' = char_range_cur p
  /\ exists header rest,
       rows_of "document" p'
       = rows t ++ (if Z.eqb (cursor t) 1 then [header] else [])
         ++ [str_Z (cursor t)
             :: range_str (char_range_start (doc_at p doc)) (char_range_cur p - 1)
             :: rest].
Proof.
  intros Ht H. unfold upload_new_doc in H.
  apply bind_ok in H. destruct H as (table & p0 & E0 & H).
  apply bind_ok in E0. destruct E0 as (tabs & p00 & E00 & E0).
  injection E00 as <- <-. unfold getitem in E0. rewrite Ht in E0.
  injection E0 as <- <-.
  apply bind_ok in H. destruct H as (d & p0 & E0 & H). injection E0 as <- <-.
  apply bind_ok in H. destruct H as (cur & p0 & E0 & H). injection E0 as <- <-.
  apply bind_ok in H. destruct H as (cfg & p0 & E0 & H). injection E0 as <- <-.
  apply bind_ok in H. destruct H as (framed & p1 & E1 & H).
  apply bind_ok in H. destruct H as (named & p2 & E2 & H).
  apply bind_ok in H. destruct H as (final & p3 & E3 & H).
  set (f := fun q : Parser => (tables q, char_range_cur q)).
  set (a := str_Z (cursor t)) in *.
  set (b := range_str (char_range_start (doc_at p doc)) (char_range_cur p - 1)) in *.
  assert (F1 : f p1 = f p /\ exists rest, snd framed = a :: b :: rest).
  { split.
    - match type of E1 with ?m p = _ => assert (Hp : preserves f m) end.
      { repeat (preserve_step || apply preserves_value_dict). }
      specialize (Hp p). rewrite E1 in Hp. exact Hp.
    - destruct (Z.eqb (snd (doc_frame_range (doc_at p doc))) 0).
      + injection E1 as <- _. eexists. reflexivity.
      + apply bind_ok in E1. destruct E1 as (i & s1 & _ & E1).
        apply bind_ok in E1. destruct E1 as (u & s2 & _ & E1).
        injection E1 as <- _. eexists. reflexivity. }
  destruct F1 as [S1 [r1 R1]].
  assert (F2 : f p2 = f p1 /\ exists rest, snd (snd named) = a :: b :: rest).
  { split.
    - match type of E2 with ?m p1 = _ => assert (Hp : preserves f m) end.
      { repeat (preserve_step || apply preserves_value_dict). }
      specialize (Hp p1). rewrite E2 in Hp. exact Hp.
    - destruct (Dict.get "meta" (doc_attributes (doc_at p doc))) as [m|].
      + apply bind_ok in E2. destruct E2 as (v & s1 & _ & E2).
        injection E2 as <- _. cbn [snd].
        destruct v; [|apply starts_app]; exists r1; exact R1.
      + injection E2 as <- _. exists r1. exact R1. }
  destruct F2 as [S2 R2].
  assert (F3 : f p3 = f p2 /\ exists rest, snd final = a :: b :: rest).
  { split.
    - match type of E3 with ?m p2 = _ => assert (Hp : preserves f m) end.
      { repeat preserve_step. }
      specialize (Hp p2). rewrite E3 in Hp. exact Hp.
    - pose proof (doc_attributes_keep_start a b (doc_attributes (doc_at p doc)) _ R2) as R3.
      destruct (mediaSlots (config p)).
      + injection E3 as <- _. exact R3.
      + apply bind_ok in E3. destruct E3 as (u & s1 & _ & E3).
        injection E3 as <- _.
        match goal with |- context [if ?c then _ else _] => destruct c end;
          [cbn [snd]; apply starts_app|]; exact R3. }
  destruct F3 as [S3 [r3 R3]].
  assert (S : f p3 = f p) by (rewrite S3, S2; exact S1).
  unfold f in S. injection S as St Sc.
  apply on_table_ok in H. destruct H as (t0 & t' & Ht0 & H & ->).
  rewrite St, Ht in Ht0. injection Ht0 as <-.
  rewrite R3 in H.
  apply bind_ok in H. destruct H as (u1 & t1 & Eh & H).
  apply bind_ok in H. destruct H as (u2 & t2 & Ew & H).
  apply write_ok in Ew. destruct Ew as [_ ->].
  injection H as <-.
  split; [exact Sc|].
  exists (fst final), r3. unfold rows_of. cbn [tables set_tables].
  rewrite get_set_same. cbn [rows set_cursor set_rows].
  destruct (Z.eqb (cursor t) 1).
  - apply write_ok in Eh. destruct Eh as [_ ->]. cbn [rows set_rows].
    rewrite <- app_assoc. reflexivity.
  - injection Eh as _ <-. reflexivity.
Qed.

Lemma preserves_run {S A X} (f : S -> X) (m : M S A) s r s' :
  preserves f m -> m s = (r, s') -> f s' = f s.
Proof. intros H E. specialize (H s). rewrite E in H. exact H. Qed.



(* ================================================================== *)
(** ** The code at the inputs where it departs from the specification *)

(** C1. On "Hello World" ([Hello] followed by a space, [World] by none), from
    cursor 1, the code emits the token ranges [[1,6)] and [[7,11)] and the
    segment range [[1,11)]: the adjustment for the missing space is taken off
    the upper bound of the token, so [World] gets four positions. *)
Theorem hello_world_ranges :
  fst (Corpus.run Corpus.plain [] Corpus.hello_world) = Ok tt
  /\ rows_of "token" Corpus.after_hello
     = [["token_id"; "form_id"; "char_range"; "segment_id"];
        ["1"; "1"; "[1,6)"; "s1"];
        ["2"; "2"; "[7,11)"; "s1"]]
  /\ rows_of "segment" Corpus.after_hello
     = [["segment_id"; "char_range"]; ["s1"; "[1,11)"]].
Proof. vm_compute. repeat split; reflexivity. Qed.

(** C2. After a run over one segment that holds the tree [t1 -> t2], the
    relation table still has its header only and still buffers the tree: the
    flush at the end of the stream is guarded by [token_have_dependencies],
    which is never set.  Calling [write_token_deps] on that table is what
    would have written the two rows. *)
Theorem pending_tree_never_flushed :
  fst (Corpus.run Corpus.plain [] Corpus.one_tree) = Ok tt
  /\ (forall p, flush_dependencies p = (Ok tt, p))
  /\ exists t,
       Dict.get "head" (tables (snd (Corpus.run Corpus.plain [] Corpus.one_tree))) = Some t
       /\ rows t = [["head"; "dependent"; "udep"; "left_anchor"; "right_anchor"]]
       /\ Dict.get "s1" (deps t)
          = Some [("t1", {| head_id := ""; nested_set := 0%nat |});
                  ("t2", {| head_id := "t1"; nested_set := 1%nat |})]
       /\ rows (snd (write_token_deps "" t))
          = [["head"; "dependent"; "udep"; "left_anchor"; "right_anchor"];
             [""; "1"; "root"; "1"; "4"];
             ["1"; "2"; "obj"; "2"; "3"]].
Proof.
  split; [vm_compute; reflexivity|]. split; [intro p; reflexivity|].
  eexists. split; [vm_compute; reflexivity|].
  vm_compute. repeat split; reflexivity.
Qed.

(** C4. Three entities with the labels [a], [b] and [a,b,c]: the vocabulary
    assigns [a] index 0, [b] index 1 and [c] index 2, and after finalization
    the three bitstrings are [001], [001] and [011].  The rows of [a] and of
    [b] are the same bitstring, and no row has the bit of index 2:
    [range(idx - 1)] puts the labels of index 0 and 1 on the same bit. *)
Theorem label_bits_collide :
  fst (Corpus.run Corpus.with_ne Corpus.ne_entities Corpus.three_entities) = Ok tt
  /\ fst (close_upload_files Corpus.after_entities)
     = Ok [("ne_labels.csv", [["bit"; "label"]; ["0"; "a"]; ["1"; "b"]; ["2"; "c"]])]
  /\ rows_of "ne" (snd (close_upload_files Corpus.after_entities))
     = [["ne_id"; "tags"; "char_range"];
        ["1"; "001"; "[1,2)"];
        ["2"; "001"; "[3,4)"];
        ["3"; "011"; "[5,6)"]].
Proof. vm_compute. repeat split; reflexivity. Qed.

(** C5. An opening bracket with no space after it, at cursor 1, gets the
    range [[1,1)], which is empty; no widening is applied to the character
    range of a token. *)
Theorem glued_token_has_empty_range :
  fst (Corpus.run Corpus.plain [] Corpus.bracket) = Ok tt
  /\ rows_of "token" (snd (Corpus.run Corpus.plain [] Corpus.bracket))
     = [["token_id"; "form_id"; "char_range"; "segment_id"];
        ["1"; "1"; "[1,1)"; "s1"];
        ["2"; "2"; "[2,3)"; "s1"]].
Proof. vm_compute. repeat split; reflexivity. Qed.

(** C6. Tokens 1 to 3 refer to [E1], token 4 has no attribute for the entity,
    token 5 refers to [E2]: the row of [E1] is written when token 5 arrives
    and spans [[1,8)], through token 4, whose own range is [[7,8)]; the run
    then ends with [KeyError] in the full-text-search block, which indexes
    the missing attribute of token 4, before any row of [E2] is written. *)
Theorem interrupted_run_is_merged :
  fst (Corpus.run Corpus.with_ne Corpus.ne_entities Corpus.interrupted_run)
  = Raise (KeyError "ne")
  /\ rows_of "ne" (snd (Corpus.run Corpus.with_ne Corpus.ne_entities Corpus.interrupted_run))
     = [["ne_id"; "tags"; "char_range"]; ["1"; "1"; "[1,8)"]]
  /\ nth 4 (rows_of "token"
              (snd (Corpus.run Corpus.with_ne Corpus.ne_entities Corpus.interrupted_run))) []
     = ["4"; "4"; ""; "[7,8)"; "s1"].
Proof. vm_compute. repeat split; reflexivity. Qed.

(** C8. Two segments, the first with a [speaker] attribute and the second
    without: the header of the segment table has three columns, the row of
    the second segment two. *)
Theorem segment_rows_differ_in_width :
  fst (Corpus.run Corpus.plain [] Corpus.two_segments) = Ok tt
  /\ rows_of "segment" (snd (Corpus.run Corpus.plain [] Corpus.two_segments))
     = [["segment_id"; "char_range"; "speaker"];
        ["s1"; "[1,2)"; "A"];
        ["s2"; "[3,4)"]].
Proof. vm_compute. repeat split; reflexivity. Qed.

(* ================================================================== *)
(** ** Further properties of the code *)

(* ------------------------------------------------------------------ *)
(** *** The character cursor *)

Lemma on_table_keeps {A X} (f : Parser -> X) key (m : M Table A) :
  (forall tabs p, f (set_tables tabs p) = f p) -> preserves f (on_table key m).
Proof.
  intros Hf p. unfold on_table.
  destruct (Dict.get key (tables p)) as [t|]; [|reflexivity].
  destruct (m t) as [r t']. simpl. apply Hf.
Qed.

Lemma bind_table_keeps {X} (f : Parser -> X) key t :
  (forall tabs p, f (set_tables tabs p) = f p) -> preserves f (bind_table key t).
Proof. intros Hf p. unfold bind_table, modify. simpl. apply Hf. Qed.

(** The steps of a proof that a computation leaves alone an observation that
    does not depend on the tables. *)
Ltac keep_step :=
  match goal with
  | |- preserves _ (on_table _ _) => apply on_table_keeps; intros; reflexivity
  | |- preserves _ (bind_table _ _) => apply bind_table_keeps; intros; reflexivity
  | |- preserves _ (update_doc _ _) => unfold update_doc
  | _ => preserve_step
  end.

(** From [m s = (r, s')] to [f s' = f s], for an [m] that preserves [f]. *)
Ltac kept f E tac :=
  match type of E with
  | ?m ?s = _ =>
      let P := fresh "P" in
      assert (P : preserves f m) by tac;
      apply (preserves_run f m s _ _ P) in E
  end.

Lemma aligned_entity_keeps_cursor attribute aligned_entities :
  preserves char_range_cur (aligned_entity attribute aligned_entities).
Proof.
  unfold aligned_entity. destruct attribute; try apply preserves_raise.
  assert (F : forall a la fk lines ce,
             preserves char_range_cur (find_entity a la fk lines ce)).
  { intros a la fk lines. induction lines as [|l r IH]; intro ce; simpl.
    - apply preserves_ret.
    - destruct (String.eqb (strip (hd "" (split tab l))) fk); [|apply IH].
      unfold read_entity_cols. repeat keep_step. }
  unfold create_entity_table, write_entity, pack_labels.
  repeat (keep_step || apply F).
Qed.

Lemma close_aligned_entity_keeps_cursor name aligned_entities :
  preserves char_range_cur (close_aligned_entity name aligned_entities).
Proof.
  unfold close_aligned_entity.
  repeat (keep_step || apply aligned_entity_keeps_cursor).
Qed.

Lemma dispatch_attribute_keeps_cursor aligned_entities tok_name segment token cols attr_name :
  preserves char_range_cur
    (dispatch_attribute aligned_entities tok_name segment token cols attr_name).
Proof.
  unfold dispatch_attribute, buffer_dependency.
  repeat (keep_step || apply aligned_entity_keeps_cursor).
Qed.

Lemma process_token_cursor_range
    (aligned_entities : Dict.t AlignedSpec) (tok_name : string) (offset : Z)
    (segment : Segment) (fstart : option Z) (token : Token) (form : Attribute)
    (p p' : Parser) (r : option Z) :
  Dict.get "form" (tok_attributes token) = Some form ->
  process_token aligned_entities tok_name offset segment fstart token p = (Ok r, p') ->
  char_range_cur p'
  = char_range_cur p + value_len form + (if spaceAfter token then 1 else 0)
  /\ In (range_str (char_range_cur p) (char_range_cur p' - 1))
        (last (rows_of "token" p') []).
Proof.
  intros Hform H. unfold process_token in H.
  apply bind_ok in H. destruct H as (token_cursor & q1 & E1 & H).
  apply bind_ok in H. destruct H as (non_null & q2 & E2 & H).
  apply bind_ok in H. destruct H as (cols & q3 & E3 & H).
  apply bind_ok in H. destruct H as (u & q4 & E4 & H).
  assert (C4 : char_range_cur q4 = char_range_cur p).
  { kept char_range_cur E4
      ltac:(apply preserves_for_each; intros; destruct (str_in _ _);
            [apply preserves_ret | apply close_aligned_entity_keeps_cursor]).
    kept char_range_cur E3
      ltac:(apply preserves_fold_each; intros; apply dispatch_attribute_keeps_cursor).
    kept char_range_cur E2 ltac:(idtac; keep_step).
    kept char_range_cur E1 ltac:(idtac; keep_step).
    rewrite E4, E3, E2. exact E1. }
  apply bind_ok in H. destruct H as (left & q & E & H). injection E as <- <-.
  unfold bind at 1, getitem at 1 in H. rewrite Hform in H. unfold ret at 1 in H.
  apply bind_ok in H. destruct H as (u1 & q5 & E & H). injection E as _ <-.
  apply bind_ok in H. destruct H as (cur & q & E & H). injection E as <- <-.
  apply bind_ok in H. destruct H as (u2 & q6 & E & H). injection E as _ <-.
  apply bind_ok in H. destruct H as (framed & q7 & E7 & H).
  apply bind_ok in H. destruct H as (u3 & q8 & E8 & H).
  injection H as _ <-.
  cbn [char_range_cur set_char_range_cur] in *.
  set (range := range_str (char_range_cur q4)
                  (char_range_cur q4 + (value_len form - (if spaceAfter token then 0 else 1)))) in *.
  assert (F7 : char_range_cur q7
               = char_range_cur q4 + (value_len form - (if spaceAfter token then 0 else 1)) + 1
               /\ In range (fst framed)).
  { destruct (tok_frame_range token) as [[l r0]|].
    - apply bind_ok in E7. destruct E7 as (u4 & s1 & E & E7). injection E as _ <-.
      apply bind_ok in E7. destruct E7 as (current & s & E & E7). injection E as <- <-.
      apply bind_ok in E7. destruct E7 as (u5 & s2 & E & E7).
      assert (C2 : char_range_cur s2
                   = char_range_cur q4
                     + (value_len form - (if spaceAfter token then 0 else 1)) + 1).
      { match type of E with context [match ?c with _ => _ end] => destruct c end;
          injection E as _ <-; reflexivity. }
      apply bind_ok in E7. destruct E7 as (u6 & s3 & E' & E7). injection E' as _ <-.
      injection E7 as <- <-. split; [exact C2|].
      cbn [fst]. apply in_or_app. left. apply in_or_app. right. left. reflexivity.
    - injection E7 as <- <-. split; [reflexivity|].
      cbn [fst]. apply in_or_app. right. left. reflexivity. }
  destruct F7 as [C7 I7].
  apply on_table_ok in E8. destruct E8 as (t & t' & _ & E8 & ->).
  apply bind_ok in E8. destruct E8 as (u4 & t1 & Ew & E8).
  apply write_ok in Ew. destruct Ew as [_ ->]. injection E8 as _ <-.
  cbn [char_range_cur set_tables]. rewrite C7, C4. split.
  - destruct (spaceAfter token); lia.
  - unfold rows_of. cbn [tables set_tables]. rewrite get_set_same.
    cbn [rows set_cursor set_rows]. rewrite last_last.
    apply in_or_app. left.
    replace (char_range_cur p + (value_len form - (if spaceAfter token then 0 else 1)) + 1 - 1)
      with (char_range_cur p + (value_len form - (if spaceAfter token then 0 else 1))) by lia.
    rewrite <- C4. exact I7.
Qed.

(** X1. A token that is processed to its end moves the character cursor by
    the length of its form, plus one when a space follows it; the range in
    its row starts at the cursor it found and stops one short of the cursor
    it leaves. *)
Theorem process_token_advances_cursor
    (aligned_entities : Dict.t AlignedSpec) (tok_name : string) (offset : Z)
    (segment : Segment) (fstart : option Z) (token : Token) (form : Attribute)
    (p p' : Parser) (r : option Z) :
  Dict.get "form" (tok_attributes token) = Some form ->
  process_token aligned_entities tok_name offset segment fstart token p = (Ok r, p') ->
  char_range_cur p'
  = char_range_cur p + value_len form + (if spaceAfter token then 1 else 0)
  /\ In (range_str (char_range_cur p) (char_range_cur p' - 1))
        (last (rows_of "token" p') []).
Proof. apply process_token_cursor_range. Qed.

Lemma process_token_advances_cursor_witness :
  char_range_cur Corpus.after_token
  = char_range_cur Corpus.ready + value_len (Text "form" "Hello")
    + (if spaceAfter Corpus.hello then 1 else 0)
  /\ In (range_str (char_range_cur Corpus.ready) (char_range_cur Corpus.after_token - 1))
        (last (rows_of "token" Corpus.after_token) []).
Proof.
  apply (process_token_advances_cursor [] "token" 0 Corpus.tree_segment None Corpus.hello
           (Text "form" "Hello") Corpus.ready Corpus.after_token None);
    vm_compute; reflexivity.
Defined.

(* ------------------------------------------------------------------ *)
(** *** The row of a segment *)

(** X2. The row of a segment that is written to its end is the last line of
    the segment table; it starts with the identifier of the segment and the
    range from the cursor at which the segment started to the current cursor
    minus one, and writing it does not move the cursor. *)
Theorem write_segment_row
    (aligned_entities_segment : Dict.t AlignedSpec) (seg_name : string)
    (segment : Segment) (start : Z) (fstart : option Z) (p p' : Parser)
    (cols : list string) :
  write_segment aligned_entities_segment seg_name segment start fstart p = (Ok cols, p') ->
  char_range_cur p' = char_range_cur p
  /\ last (rows_of "segment" p') [] = cols
  /\ exists rest,
       cols = seg_id segment :: range_str start (char_range_cur p - 1) :: rest.
Proof.
  intro H. unfold write_segment in H.
  apply bind_ok in H. destruct H as (segment_table & p1 & E1 & H).
  apply bind_ok in H. destruct H as (has_frame & p2 & E & H). injection E as _ <-.
  apply bind_ok in H. destruct H as (u & p3 & E3 & H).
  apply bind_ok in H. destruct H as (cur & p4 & E & H). injection E as <- <-.
  apply bind_ok in H. destruct H as (cols1 & p5 & E5 & H).
  apply bind_ok in H. destruct H as (cols2 & p6 & E6 & H).
  apply bind_ok in H. destruct H as (u1 & p7 & E7 & H).
  apply bind_ok in H. destruct H as (u2 & p8 & E8 & H).
  injection H as <- <-.
  assert (R6 : exists rest, cols2 = seg_id segment :: range_str start (char_range_cur p3 - 1) :: rest).
  { assert (R5 : exists rest, cols1 = seg_id segment :: range_str start (char_range_cur p3 - 1) :: rest).
    { destruct has_frame.
      - apply bind_ok in E5. destruct E5 as (e & s & _ & E5).
        destruct fstart as [s0|]; [|discriminate E5].
        injection E5 as <- _. eexists. reflexivity.
      - injection E5 as <- _. eexists. reflexivity. }
    refine (fold_each_result
              (fun c => exists rest,
                 c = seg_id segment :: range_str start (char_range_cur p3 - 1) :: rest)
              _ _ _ _ _ _ _ R5 E6).
    intros acc a s acc' s' [rest ->] Hb.
    destruct (Dict.mem (lower (attr_name a)) aligned_entities_segment).
    - apply bind_ok in Hb. destruct Hb as (u3 & s1 & _ & Hb).
      injection Hb as <- _. eexists. reflexivity.
    - apply bind_ok in Hb. destruct Hb as (names & s1 & _ & Hb).
      destruct (negb (str_in (attr_name a) names)).
      + injection Hb as <- _. eexists. reflexivity.
      + apply bind_ok in Hb. destruct Hb as (u3 & s2 & _ & Hb).
        injection Hb as <- _. eexists. reflexivity. }
  kept char_range_cur E1 ltac:(idtac; keep_step).
  kept char_range_cur E3 ltac:(idtac; repeat keep_step).
  kept char_range_cur E5 ltac:(idtac; repeat keep_step).
  kept char_range_cur E6
    ltac:(idtac; repeat (keep_step || apply aligned_entity_keeps_cursor)).
  kept char_range_cur E7
    ltac:(idtac; repeat (keep_step || apply close_aligned_entity_keeps_cursor)).
  assert (C7 : char_range_cur p7 = char_range_cur p).
  { rewrite E7, E6, E5. cbn [char_range_cur] in E3 |- *. rewrite E3. exact E1. }
  assert (C3 : char_range_cur p3 = char_range_cur p).
  { cbn [char_range_cur] in E3. rewrite E3. exact E1. }
  apply on_table_ok in E8. destruct E8 as (t & t' & _ & E8 & ->).
  apply bind_ok in E8. destruct E8 as (u3 & t1 & Ew & E8).
  apply write_ok in Ew. destruct Ew as [_ ->]. injection E8 as _ <-.
  cbn [char_range_cur set_tables].
  split; [exact C7|]. split.
  - unfold rows_of. cbn [tables set_tables]. rewrite get_set_same.
    cbn [rows set_cursor set_rows]. apply last_last.
  - rewrite <- C3. exact R6.
Qed.

Lemma write_segment_row_witness :
  char_range_cur Corpus.after_segment = char_range_cur Corpus.after_token
  /\ last (rows_of "segment" Corpus.after_segment) [] = ["s1"; "[1,6)"]
  /\ exists rest,
       ["s1"; "[1,6)"]
       = seg_id Corpus.tree_segment
         :: range_str 1 (char_range_cur Corpus.after_token - 1) :: rest.
Proof.
  apply (write_segment_row [] "segment" Corpus.tree_segment 1 None Corpus.after_token
           Corpus.after_segment ["s1"; "[1,6)"]).
  vm_compute. reflexivity.
Defined.

(* ------------------------------------------------------------------ *)
(** *** Documents *)

(** X3. A call of [upload_new_doc] that returns appends to the table of the
    documents its header, if and only if the cursor of the table is 1, and
    then exactly one row, which starts with that cursor and with the range
    from the start of the document to the character cursor minus one; the
    character cursor stays where it is. *)
Theorem upload_new_doc_appends_one_row
    (doc : nat) (doc_name : string) (p p' : Parser) (t : Table) :
  Dict.get "document" (tables p) = Some t ->
  upload_new_doc doc doc_name p = (Ok tt, p') ->
  char_range_cur p' = char_range_cur p
  /\ exists header rest,
       rows_of "document" p'
       = rows t ++ (if Z.eqb (cursor t) 1 then [header] else [])
         ++ [str_Z (cursor t)
             :: range_str (char_range_start (doc_at p doc)) (char_range_cur p - 1)
             :: rest].
Proof. apply upload_new_doc_rows. Qed.

Lemma upload_new_doc_appends_one_row_witness :
  char_range_cur (snd (upload_new_doc 0 "document" Corpus.after_hello))
  = char_range_cur Corpus.after_hello
  /\ exists header rest,
       rows_of "document" (snd (upload_new_doc 0 "document" Corpus.after_hello))
       = [["document_id"; "char_range"]; ["1"; "[1,11)"]]
         ++ (if Z.eqb 2 1 then [header] else [])
         ++ [str_Z 2 :: range_str 1 (12 - 1) :: rest].
Proof.
  apply (upload_new_doc_appends_one_row 0 "document" Corpus.after_hello
           (snd (upload_new_doc 0 "document" Corpus.after_hello))
           {| t_name := "document"; cursor := 2;
              rows := [["document_id"; "char_range"]; ["1"; "[1,11)"]];
              t_config := None; col_names := []; categorical_values := [];
              labels := []; current_entity := Entity_empty; deps := [];
              ns_heap := []; anchor_right := 0; non_null_attributes := [];
              ids := []; closed := false |});
    vm_compute; reflexivity.
Defined.

(* ------------------------------------------------------------------ *)
(** *** Aligned entities *)

Lemma set_tables_same p : set_tables (tables p) p = p.
Proof. destruct p; reflexivity. Qed.

Lemma on_table_gets {A} key (g : Table -> A) p t :
  Dict.get key (tables p) = Some t -> on_table key (gets g) p = (Ok (g t), p).
Proof.
  intro H. unfold on_table, gets. rewrite H.
  rewrite (set_get_same _ _ _ H). rewrite set_tables_same. reflexivity.
Qed.




Lemma pack_labels_keeps_cursor aname_low text :
  preserves char_range_cur (pack_labels aname_low text).
Proof. unfold pack_labels. repeat keep_step. Qed.

(** X6. The row that closes an aligned entity never has an empty character
    range: its range starts where the entity was opened and stops at the
    cursor minus one, or one past its start when that would not be beyond
    it. *)
Theorem write_entity_range_not_empty
    (aname_low : string) (layer_attributes : Dict.t AttrCfg) (has_frame : bool)
    (ce : Entity) (p p' : Parser) (low : Z) :
  e_range_low ce = Some low ->
  write_entity aname_low layer_attributes has_frame ce p = (Ok tt, p') ->
  low < Z.max (char_range_cur p - 1) (low + 1)
  /\ In (range_str low (Z.max (char_range_cur p - 1) (low + 1)))
        (last (rows_of aname_low p') []).
Proof.
  intros Hlow H. split; [lia|]. unfold write_entity in H.
  apply bind_ok in H. destruct H as (entity_cols & q0 & E0 & H).
  apply bind_ok in H. destruct H as (names & q1 & E1 & H).
  apply bind_ok in H. destruct H as (cols & q2 & E2 & H).
  apply bind_ok in H. destruct H as (cur & q & E & H). injection E as <- <-.
  unfold bind at 1 in H. rewrite Hlow in H. unfold entry at 1, ret at 1 in H.
  apply bind_ok in H. destruct H as (table_cursor & q3 & E3 & H).
  apply bind_ok in H. destruct H as (cols_to_write & q4 & E4 & H).
  assert (C2 : char_range_cur q2 = char_range_cur q0).
  { kept char_range_cur E2
      ltac:(idtac; repeat (keep_step || apply pack_labels_keeps_cursor)).
    kept char_range_cur E1 ltac:(idtac; keep_step).
    rewrite E2. exact E1. }
  assert (C0 : char_range_cur q0 = char_range_cur p).
  { kept char_range_cur E0 ltac:(idtac; keep_step). exact E0. }
  assert (Hup : (if char_range_cur q2 - 1 <=? low then low + 1 else char_range_cur q2 - 1)
                = Z.max (char_range_cur p - 1) (low + 1)).
  { rewrite C2, C0. destruct (Z.leb_spec (char_range_cur p - 1) low); lia. }
  rewrite Hup in E4.
  assert (I4 : In (range_str low (Z.max (char_range_cur p - 1) (low + 1))) cols_to_write).
  { destruct has_frame.
    - apply bind_ok in E4. destruct E4 as (lf & s1 & _ & E4).
      apply bind_ok in E4. destruct E4 as (uf & s2 & _ & E4).
      injection E4 as <- _. simpl. rewrite ?in_app_iff. simpl. tauto.
    - injection E4 as <- _. simpl. rewrite ?in_app_iff. simpl. tauto. }
  apply on_table_ok in H. destruct H as (t & t' & _ & H & ->).
  apply bind_ok in H. destruct H as (u & t1 & Ew & H).
  apply write_ok in Ew. destruct Ew as [_ ->]. injection H as <-.
  unfold rows_of. cbn [tables set_tables].
  rewrite get_set_same. cbn [rows set_cursor set_rows]. rewrite last_last. exact I4.
Qed.

Lemma write_entity_range_not_empty_witness :
  1 < Z.max (char_range_cur Corpus.after_open - 1) (1 + 1)
  /\ In (range_str 1 (Z.max (char_range_cur Corpus.after_open - 1) (1 + 1)))
        (last (rows_of "ne"
                 (snd (write_entity "ne" Corpus.ne_attributes false Corpus.open_entity
                         Corpus.after_open))) []).
Proof.
  apply (write_entity_range_not_empty "ne" Corpus.ne_attributes false Corpus.open_entity
           Corpus.after_open
           (snd (write_entity "ne" Corpus.ne_attributes false Corpus.open_entity
                   Corpus.after_open)) 1);
    vm_compute; reflexivity.
Defined.

(* ------------------------------------------------------------------ *)
(** *** The label vocabulary *)

(** The label [l] has the index [i] in the vocabulary of the table bound to
    [key]. *)
Lemma pack_step_keeps_index key l i bits label :
  maintains (fun p => exists t, Dict.get key (tables p) = Some t
                                /\ Dict.get l (labels t) = Some i)
    (lbls <- on_table key (gets labels) ;;
     on_table key (modify (fun t =>
       set_labels (Dict.set (strip label)
                     (match Dict.get (strip label) lbls with
                      | Some i => i
                      | None => Z.of_nat (List.length lbls)
                      end) (labels t)) t)) ;;;
     ret (Z.lor bits (int2_one_zeros
                        ((match Dict.get (strip label) lbls with
                          | Some i => i
                          | None => Z.of_nat (List.length lbls)
                          end) - 1)))).
Proof.
  intros p (t & Ht & Hl).
  unfold bind at 1. rewrite (on_table_gets _ _ _ _ Ht).
  unfold bind at 1, on_table. rewrite Ht. cbn [modify fst snd ret tables set_tables].
  exists (set_labels
            (Dict.set (strip label)
               match Dict.get (strip label) (labels t) with
               | Some i0 => i0
               | None => Z.of_nat (List.length (labels t))
               end (labels t)) t).
  split; [apply get_set_same|]. cbn [labels set_labels].
  destruct (String.eqb l (strip label)) eqn:E.
  - apply String.eqb_eq in E. subst l. rewrite Hl. apply get_set_same.
  - apply String.eqb_neq in E. rewrite get_set_other by exact E. exact Hl.
Qed.

(** X7. Packing the labels of one more text never renumbers the vocabulary:
    a label that had an index before keeps it. *)
Theorem pack_labels_keeps_indices
    (aname_low text : string) (p : Parser) (t : Table) (l : string) (i : Z) :
  Dict.get aname_low (tables p) = Some t ->
  Dict.get l (labels t) = Some i ->
  exists t', Dict.get aname_low (tables (snd (pack_labels aname_low text p))) = Some t'
             /\ Dict.get l (labels t') = Some i.
Proof.
  intros Ht Hl. unfold pack_labels.
  apply (maintains_fold_each
           (fun p => exists t, Dict.get aname_low (tables p) = Some t
                               /\ Dict.get l (labels t) = Some i)).
  - intros bits label. apply pack_step_keeps_index.
  - exists t. split; assumption.
Qed.

Lemma pack_labels_keeps_indices_witness :
  exists t',
    Dict.get "ne" (tables (snd (pack_labels "ne" "b, d" Corpus.after_entities))) = Some t'
    /\ Dict.get "b" (labels t') = Some 1.
Proof.
  apply (pack_labels_keeps_indices "ne" "b, d" Corpus.after_entities Corpus.ne_table "b" 1);
    vm_compute; reflexivity.
Defined.

(* ------------------------------------------------------------------ *)
(** *** Padding the bitstrings *)

Lemma length_append a b :
  String.length (String.append a b) = (String.length a + String.length b)%nat.
Proof. induction a as [|c r IH]; simpl; [reflexivity | rewrite IH; reflexivity]. Qed.

Lemma length_zeros n : String.length (zeros n) = Z.to_nat n.
Proof.
  unfold zeros, fmt. induction (Z.to_nat n) as [|k IH]; [reflexivity|].
  simpl. destruct (repeat "0" k) eqn:E.
  - destruct k; [reflexivity | discriminate E].
  - simpl in IH |- *. rewrite IH. reflexivity.
Qed.

Lemma len_pad_cell nlabels bits : len (pad_cell nlabels bits) = Z.max (len bits) nlabels.
Proof.
  unfold pad_cell. destruct (Z.ltb_spec (len bits) nlabels) as [H|H]; [|lia].
  change (fmt [zeros (nlabels - len bits); bits])
    with (String.append (zeros (nlabels - len bits)) bits).
  unfold len in *. rewrite length_append, length_zeros. lia.
Qed.

Lemma pad_cell_twice nlabels bits :
  pad_cell nlabels (pad_cell nlabels bits) = pad_cell nlabels bits.
Proof.
  unfold pad_cell at 1. rewrite len_pad_cell.
  destruct (Z.ltb_spec (Z.max (len bits) nlabels) nlabels); [lia | reflexivity].
Qed.

Lemma length_set_nth {A} (l : list A) n x : List.length (set_nth l n x) = List.length l.
Proof.
  revert n. induction l as [|y r IH]; intros [|n]; simpl; try reflexivity.
  rewrite IH. reflexivity.
Qed.

Lemma nth_error_set_nth {A} (l : list A) n x i y :
  nth_error l i = Some y ->
  nth_error (set_nth l n x) i = Some (if Nat.eqb n i then x else y).
Proof.
  revert n i. induction l as [|z r IH]; intros [|n] [|i]; simpl; try discriminate;
    try (intro H; exact H); try reflexivity.
  apply IH.
Qed.

Lemma index_position {A} (l : list A) n x :
  index l n = Some x -> nth_error l (position (List.length l) n) = Some x.
Proof.
  unfold index, position.
  destruct (Z.leb_spec 0 n) as [H|H]; simpl.
  - destruct (n <? Z.of_nat (List.length l)); [intro E; exact E|].
    destruct (Z.ltb_spec n 0); [lia|]. simpl. discriminate.
  - destruct (Z.ltb_spec n 0); [|lia]. simpl.
    destruct (0 <=? Z.of_nat (List.length l) + n); [intro E; exact E | discriminate].
Qed.

Lemma set_index_position {A} (l : list A) n x :
  set_index l n x = set_nth l (position (List.length l) n) x.
Proof. unfold set_index, position. destruct (0 <=? n); reflexivity. Qed.

(** X8. The padding of one data line by [close_upload_files], when every
    located index is within the line: the state is not touched, the line
    keeps its number of cells, every cell that a labels attribute is located
    at becomes its bitstring left-padded with zeros up to [nlabels]
    characters (left as it is when it has that many), and every other cell
    is left as it is. *)
Theorem pad_label_columns_pads_located {S}
    (nlabels : Z) (label_attributes : Dict.t Z) (cols cols' : list string) (s s' : S) :
  pad_label_columns nlabels cols label_attributes s = (Ok cols', s') ->
  s' = s
  /\ List.length cols' = List.length cols
  /\ forall i bits, nth_error cols i = Some bits ->
       nth_error cols' i
       = Some (if located (List.length cols) (Dict.values label_attributes) i
               then pad_cell nlabels bits else bits).
Proof.
  unfold pad_label_columns. generalize (Dict.values label_attributes) as ns.
  intro ns. revert cols s. induction ns as [|n r IH]; intros cols s H.
  - injection H as <- <-. repeat split. intros i bits Hi. exact Hi.
  - rewrite fold_each_cons in H. apply bind_ok in H.
    destruct H as (cols1 & s1 & E1 & H).
    destruct (index cols n) as [bits0|] eqn:En; [|discriminate E1].
    injection E1 as <- <-.
    apply IH in H. destruct H as (-> & Hlen & Hcells).
    rewrite set_index_position in Hlen, Hcells.
    rewrite length_set_nth in Hlen, Hcells.
    split; [reflexivity|]. split; [exact Hlen|].
    intros i bits Hi.
    pose proof (nth_error_set_nth cols (position (List.length cols) n)
                  (pad_cell nlabels bits0) i bits Hi) as H1.
    fold (pad_cell nlabels bits0) in Hcells.
    rewrite (Hcells i _ H1). unfold located. simpl.
    destruct (Nat.eqb (position (List.length cols) n) i) eqn:E; simpl.
    + apply Nat.eqb_eq in E. subst i.
      rewrite (index_position _ _ _ En) in Hi. injection Hi as <-.
      rewrite pad_cell_twice.
      destruct (existsb _ r); reflexivity.
    + reflexivity.
Qed.

Lemma pad_label_columns_pads_located_witness :
  snd (pad_label_columns 3 ["2"; "1"; "[3,4)"] [("tags", 1)] tt) = tt
  /\ List.length ["2"; "001"; "[3,4)"] = List.length ["2"; "1"; "[3,4)"]
  /\ forall i bits, nth_error ["2"; "1"; "[3,4)"] i = Some bits ->
       nth_error ["2"; "001"; "[3,4)"] i
       = Some (if located (List.length ["2"; "1"; "[3,4)"]) (Dict.values [("tags", 1)]) i
               then pad_cell 3 bits else bits).
Proof.
  apply (pad_label_columns_pads_located 3 [("tags", 1)] ["2"; "1"; "[3,4)"]
           ["2"; "001"; "[3,4)"] tt).
  vm_compute. reflexivity.
Defined.

(* ------------------------------------------------------------------ *)
(** *** Finalization without labels *)

Lemma keys_get {V} k (d : Dict.t V) :
  In k (Dict.keys d) -> exists v, Dict.get k d = Some v /\ In (k, v) d.
Proof.
  induction d as [|[k' v'] r IH]; simpl; [intros []|].
  intro H. destruct (String.eqb k k') eqn:E.
  - apply String.eqb_eq in E. subst k'. exists v'. split; [reflexivity | left; reflexivity].
  - destruct H as [H|H]; [subst k'; rewrite String.eqb_refl in E; discriminate E|].
    destruct (IH H) as (v & Hv & Hin). exists v. split; [exact Hv | right; exact Hin].
Qed.

Lemma keys_set_present {V} k (v v' : V) d :
  Dict.get k d = Some v -> Dict.keys (Dict.set k v' d) = Dict.keys d.
Proof.
  unfold Dict.keys. induction d as [|[k0 v0] r IH]; simpl; [discriminate|].
  destruct (String.eqb k k0) eqn:E; intro H; simpl.
  - reflexivity.
  - rewrite (IH H). reflexivity.
Qed.

Lemma get_str_in_keys {V} k (v : V) d :
  Dict.get k d = Some v -> str_in k (Dict.keys d) = true.
Proof.
  unfold str_in, Dict.keys. induction d as [|[k0 v0] r IH]; simpl; [discriminate|].
  destruct (String.eqb k k0); intro H; [reflexivity | exact (IH H)].
Qed.

(** A table without labels is closed by [close_table], and nothing else is
    done with it. *)
Lemma close_table_without_labels k p t :
  Dict.get k (tables p) = Some t -> labels t = [] ->
  close_table k p
  = (Ok None, set_tables (Dict.set k (set_closed true t) (tables p)) p).
Proof.
  intros Ht Hl. unfold close_table.
  unfold bind at 1. rewrite (on_table_get _ _ _ _ Ht). cbn [fst snd modify].
  set (q := set_tables (Dict.set k (set_closed true t) (tables p)) p).
  assert (Hq : Dict.get k (tables q) = Some (set_closed true t)).
  { unfold q. cbn [tables set_tables]. apply get_set_same. }
  unfold bind at 1. rewrite (on_table_gets _ _ _ _ Hq).
  cbn [labels set_closed]. rewrite Hl. reflexivity.
Qed.

Lemma close_tables_without_labels ks :
  forall q files,
    (forall k t, Dict.get k (tables q) = Some t -> labels t = []) ->
    (forall k, In k ks -> Dict.mem k (tables q) = true) ->
    exists q',
      fold_each ks files (fun files n =>
        side <- close_table n ;;
        ret (match side with
             | Some s => files ++ [(fmt [n; "_labels.csv"], s)]
             | None => files
             end)) q = (Ok files, q')
      /\ q' = set_tables (tables q') q
      /\ Dict.keys (tables q') = Dict.keys (tables q)
      /\ forall k t, Dict.get k (tables q) = Some t ->
           Dict.get k (tables q')
           = Some (if str_in k ks then set_closed true t else t).
Proof.
  induction ks as [|k0 r IH]; intros q files Hl Hk.
  - exists q. split; [reflexivity|]. split; [symmetry; apply set_tables_same|].
    split; [reflexivity|]. intros k t Ht. exact Ht.
  - assert (M0 : Dict.mem k0 (tables q) = true) by (apply Hk; left; reflexivity).
    unfold Dict.mem in M0.
    destruct (Dict.get k0 (tables q)) as [t0|] eqn:Ht0; [clear M0 | discriminate M0].
    pose proof (close_table_without_labels k0 q t0 Ht0 (Hl k0 t0 Ht0)) as Ec.
    set (q1 := set_tables (Dict.set k0 (set_closed true t0) (tables q)) q) in *.
    assert (G1 : forall k t1, Dict.get k (tables q1) = Some t1 ->
                   exists t, Dict.get k (tables q) = Some t
                             /\ t1 = (if String.eqb k k0 then set_closed true t else t)).
    { intros k t1. unfold q1. cbn [tables set_tables].
      destruct (String.eqb k k0) eqn:E.
      - apply String.eqb_eq in E. subst k. rewrite get_set_same.
        intro H. injection H as <-. exists t0. split; [exact Ht0 | reflexivity].
      - apply String.eqb_neq in E. rewrite (get_set_other _ _ _ _ E).
        intro H. exists t1. split; [exact H | reflexivity]. }
    assert (Hl1 : forall k t, Dict.get k (tables q1) = Some t -> labels t = []).
    { intros k t1 H1. destruct (G1 k t1 H1) as (t & Ht & ->).
      destruct (String.eqb k k0); [cbn [labels set_closed]|]; exact (Hl k t Ht). }
    assert (Hk1 : forall k, In k r -> Dict.mem k (tables q1) = true).
    { intros k Hin. unfold Dict.mem, q1. cbn [tables set_tables].
      destruct (String.eqb k k0) eqn:E.
      - apply String.eqb_eq in E. subst k. rewrite get_set_same. reflexivity.
      - apply String.eqb_neq in E. rewrite (get_set_other _ _ _ _ E).
        apply (Hk k). right. exact Hin. }
    destruct (IH q1 files Hl1 Hk1) as (q' & Ef & Eq & Ekeys & Eget).
    exists q'. split.
    { rewrite fold_each_cons. unfold bind at 1. unfold bind at 1. rewrite Ec.
      unfold ret at 1. exact Ef. }
    split.
    { rewrite Eq. unfold q1. destruct q; reflexivity. }
    split.
    { rewrite Ekeys. unfold q1. cbn [tables set_tables].
      apply (keys_set_present _ _ _ _ Ht0). }
    intros k t Ht. unfold str_in. cbn [existsb]. fold (str_in k r).
    destruct (String.eqb k k0) eqn:E.
    + apply String.eqb_eq in E. subst k. rewrite Ht0 in Ht. injection Ht as <-.
      assert (H1 : Dict.get k0 (tables q1) = Some (set_closed true t0)).
      { unfold q1. cbn [tables set_tables]. apply get_set_same. }
      rewrite (Eget _ _ H1). cbn [orb]. destruct (str_in k0 r); reflexivity.
    + assert (H1 : Dict.get k (tables q1) = Some t).
      { unfold q1. cbn [tables set_tables]. apply String.eqb_neq in E.
        rewrite (get_set_other _ _ _ _ E). exact Ht. }
      rewrite (Eget _ _ H1). reflexivity.
Qed.

(** X9. When no table has a label vocabulary, [close_upload_files] writes no
    side file: it closes the file of every table, and leaves the tables and
    the parser otherwise as it found them. *)
Theorem close_upload_files_without_labels (p : Parser) :
  (forall k t, In (k, t) (tables p) -> labels t = []) ->
  exists p',
    close_upload_files p = (Ok [], p')
    /\ p' = set_tables (tables p') p
    /\ Dict.keys (tables p') = Dict.keys (tables p)
    /\ forall k t, Dict.get k (tables p) = Some t ->
         Dict.get k (tables p') = Some (set_closed true t).
Proof.
  intro H. unfold close_upload_files. unfold bind at 1, gets at 1.
  destruct (close_tables_without_labels (Dict.keys (tables p)) p [])
    as (p' & Ef & Eq & Ekeys & Eget).
  - intros k t Ht. apply (H k t). apply get_in. exact Ht.
  - intros k Hin. apply mem_key. exact Hin.
  - exists p'. split; [exact Ef|]. split; [exact Eq|]. split; [exact Ekeys|].
    intros k t Ht. rewrite (Eget k t Ht).
    rewrite (get_str_in_keys _ _ _ Ht). reflexivity.
Qed.

Lemma close_upload_files_without_labels_witness :
  exists p',
    close_upload_files Corpus.after_hello = (Ok [], p')
    /\ p' = set_tables (tables p') Corpus.after_hello
    /\ Dict.keys (tables p') = Dict.keys (tables Corpus.after_hello)
    /\ forall k t, Dict.get k (tables Corpus.after_hello) = Some t ->
         Dict.get k (tables p') = Some (set_closed true t).
Proof.
  apply close_upload_files_without_labels.
  assert (F : forallb (fun kt : string * Table =>
                         match labels (snd kt) with [] => true | _ => false end)
                      (tables Corpus.after_hello) = true)
    by (vm_compute; reflexivity).
  intros k t H. rewrite forallb_forall in F. specialize (F (k, t) H).
  cbn [snd] in F. destruct (labels t); [reflexivity | discriminate F].
Defined.

(* ------------------------------------------------------------------ *)
(** *** The segment being worked on *)

Lemma visit_segments_spare working_on l : forall acc t,
  ~ In working_on acc ->
  deps (snd (fold_each l acc (visit_segment working_on) t)) = deps t
  /\ forall acc', fst (fold_each l acc (visit_segment working_on) t) = Ok acc' ->
                  ~ In working_on acc'.
Proof.
  induction l as [|[k v] r IH]; intros acc t Hacc.
  - split; [reflexivity | intros acc' E; injection E as <-; exact Hacc].
  - rewrite fold_each_cons. unfold bind.
    destruct (visit_segment working_on acc (k, v) t) as [[acc1|e] t1] eqn:E.
    + assert (H1 : deps t1 = deps t /\ ~ In working_on acc1).
      { unfold visit_segment in E. cbn [fst snd] in E.
        destruct (String.eqb k working_on) eqn:Ek.
        - injection E as <- <-. split; [reflexivity | exact Hacc].
        - apply String.eqb_neq in Ek. apply bind_ok in E.
          destruct E as (b & t2 & E2 & E). injection E as <- <-.
          split.
          + exact (preserves_run deps _ _ _ _
                     (write_segment_deps_preserves_deps v) E2).
          + destruct b; [|exact Hacc]. intro Hin. apply in_app_or in Hin.
            destruct Hin as [Hin|[Hin|[]]]; [exact (Hacc Hin) | exact (Ek Hin)]. }
      destruct H1 as [D1 A1]. destruct (IH acc1 t1 A1) as [I1 I2].
      split; [rewrite I1; exact D1 | exact I2].
    + split; [|intros acc' E'; discriminate E'].
      unfold visit_segment in E. cbn [fst snd] in E.
      destruct (String.eqb k working_on); [discriminate E|].
      unfold bind in E.
      pose proof (write_segment_deps_preserves_deps v t) as D.
      destruct (write_segment_deps v t) as [[b|e'] t2]; [discriminate E|].
      injection E as _ <-. exact D.
Qed.

(** X10. [write_token_deps] never evicts the segment it is told is being
    worked on: whatever happens to the other segments, and whether or not the
    call raises, that segment is buffered afterwards exactly as before. *)
Theorem write_token_deps_spares_working_on (working_on : string) (t : Table) :
  Dict.get working_on (deps (snd (write_token_deps working_on t)))
  = Dict.get working_on (deps t).
Proof.
  unfold write_token_deps.
  destruct (visit_segments_spare working_on (deps t) [] t (fun x => x)) as [V1 V2].
  unfold bind at 1, gets at 1. unfold bind.
  destruct (fold_each (deps t) [] (visit_segment working_on) t) as [[acc|e] t1];
    simpl in V1, V2 |- *.
  - rewrite (evict_other working_on acc t1 (V2 acc eq_refl)). rewrite V1. reflexivity.
  - rewrite V1. reflexivity.
Qed.

(* ------------------------------------------------------------------ *)
(** *** The frozen columns of the token table *)

(** X11. Once the token table has non-null attributes, or a cursor other
    than 1, [freeze_token_columns] does nothing at all: the columns found in
    the first non-empty segment stay the columns of the table, whatever the
    tokens of a later segment carry. *)
Theorem freeze_token_columns_frozen
    (aligned_entities : Dict.t AlignedSpec) (seg_name tok_name : string)
    (segment : Segment) (p : Parser) (t : Table) :
  Dict.get "token" (tables p) = Some t ->
  non_null_attributes t <> [] \/ cursor t <> 1 ->
  freeze_token_columns aligned_entities seg_name tok_name segment p = (Ok tt, p).
Proof.
  intros Ht H. unfold freeze_token_columns.
  unfold bind at 1. rewrite (on_table_gets _ _ _ _ Ht).
  destruct (non_null_attributes t) as [|a r] eqn:E; [|reflexivity].
  destruct H as [H|H]; [contradiction H; reflexivity|].
  destruct (Z.eqb_spec (cursor t) 1) as [E1|E1]; [contradiction | reflexivity].
Qed.

Lemma freeze_token_columns_frozen_witness :
  freeze_token_columns [] "segment" "token" Corpus.tree_segment Corpus.after_hello
  = (Ok tt, Corpus.after_hello).
Proof.
  apply (freeze_token_columns_frozen [] "segment" "token" Corpus.tree_segment
           Corpus.after_hello
           {| t_name := "token"; cursor := 3;
              rows := [["token_id"; "form_id"; "char_range"; "segment_id"];
                       ["1"; "1"; "[1,6)"; "s1"]; ["2"; "2"; "[7,11)"; "s1"]];
              t_config := None; col_names := []; categorical_values := [];
              labels := []; current_entity := Entity_empty; deps := [];
              ns_heap := []; anchor_right := 0; non_null_attributes := ["form"];
              ids := []; closed := false |}).
  - vm_compute. reflexivity.
  - left. discriminate.
Defined.

(* ------------------------------------------------------------------ *)
(** *** The batch path: every line as wide as the widest *)

Lemma fold_max_ge (ws : list Z) : forall n, n <= fold_left Z.max ws n.
Proof.
  induction ws as [|w r IH]; intro n; simpl; [lia|].
  specialize (IH (Z.max n w)). lia.
Qed.

Lemma fold_max_in (ws : list Z) : forall n w, In w ws -> w <= fold_left Z.max ws n.
Proof.
  induction ws as [|x r IH]; intros n w; simpl; [intros []|].
  intros [E|H].
  - subst x. pose proof (fold_max_ge r (Z.max n w)). lia.
  - apply IH. exact H.
Qed.

Lemma ncols_ge (sentences : list ProcSentence) : forall n,
  n <= fold_left (fun ncols sent =>
                    fold_left Z.max (map (fun l => Z.of_nat (List.length l)) sent) ncols)
                 sentences n.
Proof.
  induction sentences as [|s r IH]; intro n; simpl; [lia|].
  pose proof (fold_max_ge (map (fun l => Z.of_nat (List.length l)) s) n) as H.
  specialize (IH (fold_left Z.max (map (fun l => Z.of_nat (List.length l)) s) n)). lia.
Qed.

Lemma ncols_bounds (sentences : list ProcSentence) : forall n sent l,
  In sent sentences -> In l sent ->
  Z.of_nat (List.length l)
  <= fold_left (fun ncols sent =>
                  fold_left Z.max (map (fun l => Z.of_nat (List.length l)) sent) ncols)
               sentences n.
Proof.
  induction sentences as [|s r IH]; intros n sent l; simpl; [intros []|].
  intros [E|H] Hl.
  - subst s.
    pose proof (fold_max_in (map (fun l => Z.of_nat (List.length l)) sent) n
                  (Z.of_nat (List.length l))
                  (in_map (fun l => Z.of_nat (List.length l)) sent l Hl)) as H1.
    pose proof (ncols_ge r
                  (fold_left Z.max (map (fun l => Z.of_nat (List.length l)) sent) n)).
    lia.
  - apply (IH _ sent l H Hl).
Qed.

Lemma fold_max_attained (ws : list Z) : forall n,
  fold_left Z.max ws n = n \/ In (fold_left Z.max ws n) ws.
Proof.
  induction ws as [|w r IH]; intro n; simpl; [left; reflexivity|].
  destruct (IH (Z.max n w)) as [E|H].
  - rewrite E. destruct (Z.max_spec n w) as [[_ ->]|[_ ->]];
      [right; left; reflexivity | left; reflexivity].
  - right. right. exact H.
Qed.

Lemma ncols_attained (sentences : list ProcSentence) : forall n,
  let f := fold_left (fun ncols sent =>
                        fold_left Z.max (map (fun l => Z.of_nat (List.length l)) sent) ncols)
                     sentences in
  f n = n \/ exists sent l, In sent sentences /\ In l sent /\ Z.of_nat (List.length l) = f n.
Proof.
  induction sentences as [|s r IH]; intro n; simpl; [left; reflexivity|].
  destruct (IH (fold_left Z.max (map (fun l => Z.of_nat (List.length l)) s) n))
    as [E|(sent & l & Hs & Hl & E)].
  - simpl in E. rewrite E.
    destruct (fold_max_attained (map (fun l => Z.of_nat (List.length l)) s) n) as [E1|H1].
    + left. exact E1.
    + right. apply in_map_iff in H1. destruct H1 as (l & El & Hl).
      exists s, l. split; [left; reflexivity | split; [exact Hl | exact El]].
  - right. exists sent, l. split; [right; exact Hs | split; [exact Hl | exact E]].
Qed.

Lemma Forall2_map_right {A B} (R : A -> B -> Prop) (f : A -> B) (l : list A) :
  (forall x, In x l -> R x (f x)) -> Forall2 R l (map f l).
Proof.
  induction l as [|x r IH]; intro H; simpl; constructor.
  - apply H. left. reflexivity.
  - apply IH. intros y Hy. apply H. right. exact Hy.
Qed.

(** A line of the input, once padded, has [ncols] fields, all its own
    followed by empty ones. *)
Lemma pad_line_width (proc_sentences : list ProcSentence) (sent : ProcSentence)
    (l0 : list string) :
  In sent proc_sentences -> In l0 sent ->
  let l := pad_line (ncols_of proc_sentences) l0 in
  l = l0 ++ repeat "" (List.length l - List.length l0)
  /\ Z.of_nat (List.length l) = ncols_of proc_sentences.
Proof.
  intros Hs Hl.
  pose proof (ncols_bounds proc_sentences 0 sent l0 Hs Hl) as B.
  fold (ncols_of proc_sentences) in B.
  cbv zeta. unfold pad_line. rewrite length_app, repeat_length. split; [|lia].
  f_equal. f_equal. lia.
Qed.

(** Every line [generate_upload_files] keeps has [ncols] fields. *)
Lemma padded_line_width (proc_sentences : list ProcSentence)
    (sent : ProcSentence) (l : list string) :
  In sent (pad_sentences proc_sentences) -> In l sent ->
  Z.of_nat (List.length l) = ncols_of proc_sentences.
Proof.
  unfold pad_sentences. intros Hs Hl.
  apply in_map_iff in Hs. destruct Hs as (sent0 & <- & Hs0).
  apply in_map_iff in Hl. destruct Hl as (l0 & <- & Hl0).
  apply (pad_line_width proc_sentences sent0 l0 Hs0 Hl0).
Qed.

(** X12. The padding loops of [generate_upload_files] keep the processed
    sentences and their lines, in their order, and make of every line the
    line itself followed by empty fields, [ncols] fields in all; [ncols] is
    the width of the widest line of the input (0 when there is no line, or
    only empty ones). *)
Theorem pad_sentences_equal_width (proc_sentences : list ProcSentence) :
  Forall2 (Forall2 (fun l0 l =>
             l = l0 ++ repeat "" (List.length l - List.length l0)
             /\ Z.of_nat (List.length l) = ncols_of proc_sentences))
          proc_sentences (pad_sentences proc_sentences)
  /\ (forall sent l, In sent proc_sentences -> In l sent ->
        Z.of_nat (List.length l) <= ncols_of proc_sentences)
  /\ (ncols_of proc_sentences = 0
      \/ exists sent l, In sent proc_sentences /\ In l sent
                        /\ Z.of_nat (List.length l) = ncols_of proc_sentences).
Proof.
  split; [|split].
  - unfold pad_sentences. apply Forall2_map_right. intros sent Hs.
    apply Forall2_map_right. intros l0 Hl.
    apply (pad_line_width proc_sentences sent l0 Hs Hl).
  - intros sent l Hs Hl. apply (ncols_bounds proc_sentences 0 sent l Hs Hl).
  - apply (ncols_attained proc_sentences 0).
Qed.

Lemma index_in {A} (l : list A) n x : index l n = Some x -> In x l.
Proof.
  unfold index.
  destruct ((0 <=? n) && (n <? Z.of_nat (List.length l)));
    [apply nth_error_In|].
  destruct ((n <? 0) && (0 <=? Z.of_nat (List.length l) + n));
    [apply nth_error_In | discriminate].
Qed.

(** X13. When there is a processed sentence and no processed line has more
    than six fields, [generate_upload_files] raises [IndexError] on the
    seventh field it asks of the first line (or on that line itself, when the
    first sentence has none). *)
Theorem doc_bounds_need_seven_fields (proc_sentences : list ProcSentence) :
  proc_sentences <> [] ->
  ncols_of proc_sentences <= 6 ->
  doc_bounds proc_sentences = Raise IndexError.
Proof.
  intros Hne Hn. unfold doc_bounds.
  destruct (pad_sentences proc_sentences) as [|first rest] eqn:E.
  - destruct proc_sentences; [contradiction Hne; reflexivity | discriminate E].
  - destruct (index first 0) as [first_line|] eqn:E0; [|reflexivity].
    assert (W : Z.of_nat (List.length first_line) = ncols_of proc_sentences).
    { apply (padded_line_width proc_sentences first first_line).
      - rewrite E. left. reflexivity.
      - apply (index_in _ _ _ E0). }
    assert (E6 : index first_line 6 = None).
    { unfold index. destruct (Z.ltb_spec 6 (Z.of_nat (List.length first_line))); [lia|].
      reflexivity. }
    rewrite E6. reflexivity.
Qed.

Lemma doc_bounds_need_seven_fields_witness :
  doc_bounds [[["1"; "a"]; ["2"; "b"; "c"]]] = Raise IndexError.
Proof.
  apply doc_bounds_need_seven_fields.
  - discriminate.
  - vm_compute. discriminate.
Defined.

(* ------------------------------------------------------------------ *)
(** *** The cursor over a whole run *)

Lemma process_token_cursor aligned_entities tok_name offset segment fstart token p p' r :
  process_token aligned_entities tok_name offset segment fstart token p = (Ok r, p') ->
  char_range_cur p' = char_range_cur p + token_advance token.
Proof.
  intro H. unfold token_advance.
  destruct (Dict.get "form" (tok_attributes token)) as [form|] eqn:E.
  - destruct (process_token_cursor_range _ _ _ _ _ _ _ _ _ _ E H) as [C _]. lia.
  - exfalso. unfold process_token in H.
    apply bind_ok in H. destruct H as (a1 & q1 & _ & H).
    apply bind_ok in H. destruct H as (a2 & q2 & _ & H).
    apply bind_ok in H. destruct H as (a3 & q3 & _ & H).
    apply bind_ok in H. destruct H as (a4 & q4 & _ & H).
    apply bind_ok in H. destruct H as (a5 & q5 & _ & H).
    apply bind_ok in H. destruct H as (a6 & q6 & E6 & H).
    unfold getitem in E6. rewrite E in E6. discriminate E6.
Qed.

Lemma tokens_cursor aligned_entities tok_name offset segment tokens :
  forall fstart p p' r,
  fold_each tokens fstart (process_token aligned_entities tok_name offset segment) p
  = (Ok r, p') ->
  char_range_cur p' = char_range_cur p + tokens_advance tokens.
Proof.
  induction tokens as [|t rest IH]; intros fstart p p' r H.
  - injection H as _ <-. simpl. lia.
  - rewrite fold_each_cons in H. apply bind_ok in H.
    destruct H as (f1 & p1 & E1 & H).
    apply process_token_cursor in E1. apply IH in H. simpl. lia.
Qed.

Lemma fts_vector_keeps_cursor aligned_entities seg_name segment cols :
  preserves char_range_cur (fts_vector aligned_entities seg_name segment cols).
Proof.
  unfold fts_vector, segment_vector, token_lexemes. cbn [token_have_dependencies negb].
  repeat keep_step.
Qed.

Lemma upload_new_doc_keeps_cursor doc doc_name :
  preserves char_range_cur (upload_new_doc doc doc_name).
Proof.
  unfold upload_new_doc. repeat (keep_step || apply preserves_value_dict).
Qed.

Lemma process_segment_cursor aligned_entities aligned_entities_segment seg_name tok_name
    offset segment start p p' :
  process_segment aligned_entities aligned_entities_segment seg_name tok_name offset
    segment start p = (Ok tt, p') ->
  char_range_cur p' = char_range_cur p + tokens_advance (seg_tokens segment).
Proof.
  intro H. unfold process_segment in H.
  apply bind_ok in H. destruct H as (u & p1 & E1 & H).
  apply bind_ok in H. destruct H as (fstart & p2 & E2 & H).
  apply bind_ok in H. destruct H as (cols & p3 & E3 & H).
  kept char_range_cur E1 ltac:(idtac; unfold freeze_token_columns; repeat keep_step).
  apply tokens_cursor in E2.
  kept char_range_cur E3
    ltac:(idtac; unfold write_segment;
          repeat (keep_step || apply aligned_entity_keeps_cursor
                  || apply close_aligned_entity_keeps_cursor)).
  kept char_range_cur H ltac:(idtac; apply fts_vector_keeps_cursor).
  lia.
Qed.

Lemma process_item_cursor aligned_entities aligned_entities_segment doc_name seg_name
    tok_name offset item p p' :
  process_item aligned_entities aligned_entities_segment doc_name seg_name tok_name offset
    item p = (Ok tt, p') ->
  char_range_cur p'
  = char_range_cur p
    + match fst item with
      | Some segment => tokens_advance (seg_tokens segment)
      | None => 0
      end.
Proof.
  intro H. unfold process_item in H.
  apply bind_ok in H. destruct H as (start & q & E & H). injection E as <- <-.
  apply bind_ok in H. destruct H as (u & p1 & E1 & H).
  kept char_range_cur E1
    ltac:(idtac; repeat (keep_step || apply upload_new_doc_keeps_cursor)).
  destruct (fst item) as [segment|].
  - apply process_segment_cursor in H. lia.
  - injection H as <-. lia.
Qed.

Lemma loop_cursor aligned_entities aligned_entities_segment doc_name seg_name tok_name
    offset reader : forall p p',
  for_each reader
    (process_item aligned_entities aligned_entities_segment doc_name seg_name tok_name
       offset) p = (Ok tt, p') ->
  char_range_cur p' = char_range_cur p + reader_advance reader.
Proof.
  induction reader as [|item rest IH]; intros p p' H.
  - injection H as <-. simpl. lia.
  - rewrite for_each_cons in H. apply bind_ok in H.
    destruct H as ([] & p1 & E1 & H).
    apply process_item_cursor in E1. apply IH in H.
    simpl. destruct (fst item); lia.
Qed.

(** The cursor after a run that ends normally. *)
Lemma run_cursor
    (reader : list Item) (default_doc : Dict.t string) (first_class : option (Dict.t string))
    (aligned_entities aligned_entities_segment : Dict.t AlignedSpec) (p p' : Parser) :
  generate_upload_files_generator reader default_doc first_class
    aligned_entities aligned_entities_segment p = (Ok tt, p') ->
  char_range_cur p' = char_range_cur p + reader_advance reader.
Proof.
  intro H.
  unfold generate_upload_files_generator, generate in H.
  apply bind_ok in H. destruct H as (cfg & q & E & H). injection E as <- <-.
  apply bind_ok in H. destruct H as (tabs & q & E & H). injection E as <- <-.
  apply bind_ok in H. destruct H as (u0 & q0 & E0 & H).
  apply bind_ok in H. destruct H as (u1 & q1 & E1 & H).
  apply bind_ok in H. destruct H as (u2 & q2 & E & H). injection E as _ <-.
  apply bind_ok in H. destruct H as (u3 & q3 & E & H). injection E as _ <-.
  apply bind_ok in H. destruct H as ([] & q4 & Eloop & H).
  apply bind_ok in H. destruct H as (u5 & q5 & E5 & H).
  apply bind_ok in H. destruct H as (u6 & q6 & E6 & H).
  apply bind_ok in H. destruct H as (u7 & q7 & E7 & H).
  apply bind_ok in H. destruct H as (doc & q8 & E8 & H).
  apply bind_ok in H. destruct H as (u8 & q9 & E9 & H).
  apply loop_cursor in Eloop. cbn [char_range_cur set_current_document
                                   set_has_frame_range] in Eloop.
  kept char_range_cur E0 ltac:(idtac; repeat keep_step).
  kept char_range_cur E1 ltac:(idtac; keep_step).
  kept char_range_cur E5 ltac:(idtac; unfold flush_dependencies; repeat keep_step).
  kept char_range_cur E6
    ltac:(idtac; repeat (keep_step || apply close_aligned_entity_keeps_cursor)).
  kept char_range_cur E7
    ltac:(idtac; repeat (keep_step || apply close_aligned_entity_keeps_cursor)).
  kept char_range_cur E8 ltac:(idtac; unfold last_document; repeat keep_step).
  kept char_range_cur E9 ltac:(idtac; apply upload_new_doc_keeps_cursor).
  kept char_range_cur H
    ltac:(idtac; unfold propagate_categorical; repeat keep_step).
  lia.
Qed.

(** X14. A run that ends normally leaves the character cursor at the cursor
    it started from plus, for every token of every segment the reader
    yielded, the length of the token's form and one more when a space
    follows the token. *)
Theorem run_advances_cursor_by_forms
    (reader : list Item) (default_doc : Dict.t string) (first_class : option (Dict.t string))
    (aligned_entities aligned_entities_segment : Dict.t AlignedSpec) (p p' : Parser) :
  generate_upload_files_generator reader default_doc first_class
    aligned_entities aligned_entities_segment p = (Ok tt, p') ->
  char_range_cur p' = char_range_cur p + reader_advance reader.
Proof.
  apply run_cursor.
Qed.

Lemma run_advances_cursor_by_forms_witness :
  char_range_cur Corpus.after_hello
  = char_range_cur (Parser_new Corpus.plain []) + reader_advance Corpus.hello_world.
Proof.
  apply (run_advances_cursor_by_forms Corpus.hello_world [] None [] []
           (Parser_new Corpus.plain []) Corpus.after_hello).
  vm_compute. reflexivity.
Defined.
(* ------------------------------------------------------------------ *)
(** *** The single document of an input without documents *)




